(** * Rocket telemetry service: the inventory's ordered, idempotent ingestion

    A shallow embedding of [rockets-inventory] (inventory.go, messages.go):
    the [rockets] table, the five message handlers, the reorder buffer and
    [UpdateRocketState], followed by the properties of the engine.

    Modelling conventions.
    - Go's [int] is a 64-bit integer: a [Z] with the wrap-around of [+]
      written out ([int_add]).
    - The [rockets] table is a finite map from the primary key [channel] to
      the remaining columns; nullable columns are options.  The speed
      arithmetic of the SQL statements is written on [Z]; it is SQLite's as
      long as the operands and the result are 64-bit integers.  On overflow
      SQLite computes in floating point and stores a REAL, which the column
      type here does not hold: the theorems on speed values carry the range
      as a hypothesis ([int_ok], [intSpeeds], [intInput], [noOverflow]).
    - A transaction works on a copy of the table: [Commit] installs the
      copy, [Rollback] drops it.  [UpdateRocketState] is the call on a
      store that works: its errors are [processMessage]'s own (a message
      type without handler, a payload that does not decode).
      [UpdateRocketStateOn] is the call on a store whose [Begin],
      [QueryRow], [Exec] and [Commit] may fail.
    - [encoding/json] is a library outside the repository: the decoders are
      the operations of the class [Json].
    - Calls are sequential (the per-channel mutex serialises them), so the
      lock registry is not part of the state. *)

From Stdlib Require Import ZArith Lia.
From stdpp Require Import base option list sorting strings gmap.

Open Scope Z_scope.

(** ** Go integers *)

Definition MinInt : Z := - 2 ^ 63.
Definition MaxInt : Z := 2 ^ 63 - 1.

Definition wrap (z : Z) : Z := (z + 2 ^ 63) mod 2 ^ 64 - 2 ^ 63.

(** [a + b] on [int]. *)
Definition int_add (a b : Z) : Z := wrap (a + b).

Definition int_ok (z : Z) : Prop := MinInt <= z <= MaxInt.

(** ** messages.go: the wire types *)

(** [err.Error()] of a Go error. *)
Definition error : Type := string.

Record Metadata : Type := {
  Channel : string;
  MessageNumber : Z;
  MessageTime : string;
  MessageType : string }.

Record RocketLaunchedMessage : Type := {
  Type_ : string;
  LaunchSpeed : Z;
  Mission : string }.

Record RocketSpeedChangedMessage : Type := { By : Z }.

Record RocketExplodedMessage : Type := { Reason : string }.

Record RocketMissionChangedMessage : Type := { NewMission : string }.

(** [json.RawMessage] and [json.Unmarshal] at the four payload structs. *)
Class Json : Type := {
  RawMessage : Type;
  UnmarshalLaunched : RawMessage -> error + RocketLaunchedMessage;
  UnmarshalSpeedChanged : RawMessage -> error + RocketSpeedChangedMessage;
  UnmarshalExploded : RawMessage -> error + RocketExplodedMessage;
  UnmarshalMissionChanged : RawMessage -> error + RocketMissionChangedMessage }.

(** ** The [rockets] table *)

(** One row without its key: [type], [speed], [mission], [status] are
    nullable, [last_message_number] is only ever written with an [int]. *)
Record Rocket : Type := {
  type : option string;
  speed : option Z;
  mission : option string;
  status : option string;
  last_message_number : Z }.

Abbreviation Rockets := (gmap string Rocket).

(** [SELECT last_message_number FROM rockets WHERE channel = ?] scanned into
    a zero-initialised [int]: [sql.ErrNoRows] leaves the 0. *)
Definition readLastMessageNumber (tx : Rockets) (channel : string) : Z :=
  match tx !! channel with
  | Some r => last_message_number r
  | None => 0
  end.

(** [UPDATE rockets SET last_message_number = ? WHERE channel = ?] *)
Definition setLastMessageNumber (tx : Rockets) (channel : string) (n : Z) : Rockets :=
  alter (fun r => {| type := type r; speed := speed r; mission := mission r;
                     status := status r; last_message_number := n |}) channel tx.

(** [INSERT ... ON CONFLICT(channel) DO UPDATE SET ...]: both arms write
    the same five columns. *)
Definition upsertLaunched (tx : Rockets) (channel : string) (m : RocketLaunchedMessage)
    (messageNumber : Z) : Rockets :=
  <[channel := {| type := Some (Type_ m); speed := Some (LaunchSpeed m);
                  mission := Some (Mission m); status := Some "launched"%string;
                  last_message_number := messageNumber |}]> tx.

(** [UPDATE rockets SET speed = speed + ?, last_message_number = ?]; the
    sum is SQLite's while it stays within the 64-bit integers. *)
Definition updateSpeedIncreased (tx : Rockets) (channel : string) (delta : Z)
    (messageNumber : Z) : Rockets :=
  alter (fun r => {| type := type r; speed := (fun v => v + delta) <$> speed r;
                     mission := mission r; status := status r;
                     last_message_number := messageNumber |}) channel tx.

(** [CASE WHEN speed - ? < 0 THEN 0 ELSE speed - ? END]; on a NULL speed
    the comparison is NULL, the ELSE arm is taken and yields NULL.  The
    difference is SQLite's while it stays within the 64-bit integers. *)
Definition decreased (delta : Z) (v : Z) : Z :=
  if v - delta <? 0 then 0 else v - delta.

Definition updateSpeedDecreased (tx : Rockets) (channel : string) (delta : Z)
    (messageNumber : Z) : Rockets :=
  alter (fun r => {| type := type r; speed := decreased delta <$> speed r;
                     mission := mission r; status := status r;
                     last_message_number := messageNumber |}) channel tx.

(** [UPDATE rockets SET status = ?, last_message_number = ?] *)
Definition updateExploded (tx : Rockets) (channel : string) (messageNumber : Z) : Rockets :=
  alter (fun r => {| type := type r; speed := speed r; mission := mission r;
                     status := Some "exploded"%string;
                     last_message_number := messageNumber |}) channel tx.

(** [UPDATE rockets SET mission = ?, last_message_number = ?] *)
Definition updateMissionChanged (tx : Rockets) (channel : string) (newMission : string)
    (messageNumber : Z) : Rockets :=
  alter (fun r => {| type := type r; speed := speed r; mission := Some newMission;
                     status := status r; last_message_number := messageNumber |}) channel tx.

Section Inventory.
Context `{Json}.

Record RocketMessage : Type := {
  metadata : Metadata;
  message : RawMessage }.

(** ** messages.go: the handlers *)

(** The interface [MessageHandler]; [Process] returns the error or the
    transaction's new content. *)
Record MessageHandler : Type := {
  Process : Rockets -> string -> Z -> RawMessage -> error + Rockets }.

Definition RocketLaunchedHandler : MessageHandler :=
  {| Process := fun tx channel messageNumber message =>
       match UnmarshalLaunched message with
       | inl err => inl err
       | inr m => inr (upsertLaunched tx channel m messageNumber)
       end |}.

Definition RocketSpeedIncreasedHandler : MessageHandler :=
  {| Process := fun tx channel messageNumber message =>
       match UnmarshalSpeedChanged message with
       | inl err => inl err
       | inr m => inr (updateSpeedIncreased tx channel (By m) messageNumber)
       end |}.

Definition RocketSpeedDecreasedHandler : MessageHandler :=
  {| Process := fun tx channel messageNumber message =>
       match UnmarshalSpeedChanged message with
       | inl err => inl err
       | inr m => inr (updateSpeedDecreased tx channel (By m) messageNumber)
       end |}.

Definition RocketExplodedHandler : MessageHandler :=
  {| Process := fun tx channel messageNumber message =>
       match UnmarshalExploded message with
       | inl err => inl err
       | inr _ => inr (updateExploded tx channel messageNumber)
       end |}.

Definition RocketMissionChangedHandler : MessageHandler :=
  {| Process := fun tx channel messageNumber message =>
       match UnmarshalMissionChanged message with
       | inl err => inl err
       | inr m => inr (updateMissionChanged tx channel (NewMission m) messageNumber)
       end |}.

Definition MessageHandlers : gmap string MessageHandler :=
  <["RocketLaunched"%string := RocketLaunchedHandler]>
  (<["RocketSpeedIncreased"%string := RocketSpeedIncreasedHandler]>
  (<["RocketSpeedDecreased"%string := RocketSpeedDecreasedHandler]>
  (<["RocketExploded"%string := RocketExplodedHandler]>
  (<["RocketMissionChanged"%string := RocketMissionChangedHandler]> ∅)))).

(** ** inventory.go *)

Abbreviation Buffers := (gmap string (list RocketMessage)).

(** The table as committed, and the in-memory reorder buffers. *)
Record Inventory : Type := {
  db : Rockets;
  messageBuffers : Buffers }.

Definition NewInventory (d : Rockets) : Inventory :=
  {| db := d; messageBuffers := ∅ |}.

Definition number (m : RocketMessage) : Z := MessageNumber (metadata m).

(** [i.messageBuffers[channel]]: nil for a missing key. *)
Definition buffered (bufs : Buffers) (channel : string) : list RocketMessage :=
  default [] (bufs !! channel).

Definition processMessage (tx : Rockets) (msg : RocketMessage) : error + Rockets :=
  match MessageHandlers !! MessageType (metadata msg) with
  | None => inl ("invalid message type: " ++ MessageType (metadata msg))%string
  | Some handler =>
      Process handler tx (Channel (metadata msg)) (MessageNumber (metadata msg)) (message msg)
  end.

Definition getNextMessage (bufs : Buffers) (channel : string) (messageNumber : Z)
    : option RocketMessage :=
  List.find (fun msg => number msg =? messageNumber) (buffered bufs channel).

Definition removeMessage (bufs : Buffers) (channel : string) (messageNumber : Z) : Buffers :=
  <[channel := filter (fun msg => number msg ≠ messageNumber) (buffered bufs channel)]> bufs.

(** [sort.Slice] with [less a b := number a < number b], as an insertion
    sort.  On pairwise distinct numbers, which the [alreadyBuffered] guard
    maintains, every sort returns the same slice. *)
Fixpoint insertByNumber (msg : RocketMessage) (l : list RocketMessage) : list RocketMessage :=
  match l with
  | [] => [msg]
  | x :: l' => if number msg <? number x then msg :: x :: l' else x :: insertByNumber msg l'
  end.

Definition sortSlice (l : list RocketMessage) : list RocketMessage :=
  foldr insertByNumber [] l.

Definition alreadyBuffered (buf : list RocketMessage) (messageNumber : Z) : bool :=
  existsb (fun bufferedMsg => number bufferedMsg =? messageNumber) buf.

(** Lines 87-106: the out-of-order arm's effect on the buffers. *)
Definition bufferMessage (bufs : Buffers) (channel : string) (msg : RocketMessage) : Buffers :=
  if alreadyBuffered (buffered bufs channel) (number msg) then bufs
  else <[channel := sortSlice (buffered bufs channel ++ [msg])]> bufs.

(** Lines 119-144: the drain loop.  Every iteration that finds a message
    removes it from the buffer, so the buffer's length bounds the number of
    iterations; [None] is fuel exhaustion.  The result is the buffers and
    either the error returned from inside the loop or the transaction as it
    stands at [break]. *)
Fixpoint drain (fuel : nat) (tx : Rockets) (bufs : Buffers) (channel : string)
    (lastMessageNumber : Z) : option (Buffers * (error + Rockets)) :=
  match getNextMessage bufs channel (int_add lastMessageNumber 1) with
  | None => Some (bufs, inr tx)
  | Some nextMsg =>
      match fuel with
      | O => None
      | S fuel' =>
          let bufs' := removeMessage bufs channel (number nextMsg) in
          if number nextMsg <=? lastMessageNumber then
            drain fuel' tx bufs' channel lastMessageNumber
          else
            match processMessage tx nextMsg with
            | inl err => Some (bufs', inl err)
            | inr tx' =>
                drain fuel' (setLastMessageNumber tx' channel (number nextMsg)) bufs'
                      channel (number nextMsg)
            end
      end
  end.

(** Lines 108-146: the in-order arm.  An error return runs the deferred
    [tx.Rollback()]: the table stays as committed before the call, the
    buffers keep what the loop did to them. *)
Definition applyInOrder (i : Inventory) (tx : Rockets) (msg : RocketMessage)
    : option (Inventory * option error) :=
  let channel := Channel (metadata msg) in
  match processMessage tx msg with
  | inl err => Some (i, Some err)
  | inr tx' =>
      let tx'' := setLastMessageNumber tx' channel (number msg) in
      match drain (length (buffered (messageBuffers i) channel)) tx'' (messageBuffers i)
                  channel (number msg) with
      | None => None
      | Some (bufs, inl err) => Some ({| db := db i; messageBuffers := bufs |}, Some err)
      | Some (bufs, inr txEnd) => Some ({| db := txEnd; messageBuffers := bufs |}, None)
      end
  end.

(** [UpdateRocketState]: the inventory after the call and the returned
    error ([None] for nil). *)
Definition UpdateRocketState (i : Inventory) (msg : RocketMessage)
    : option (Inventory * option error) :=
  let channel := Channel (metadata msg) in
  let tx := db i in
  let lastMessageNumber := readLastMessageNumber tx channel in
  if number msg <=? lastMessageNumber then
    Some ({| db := tx; messageBuffers := messageBuffers i |}, None)
  else if number msg >? int_add lastMessageNumber 1 then
    Some ({| db := tx; messageBuffers := bufferMessage (messageBuffers i) channel msg |}, None)
  else applyInOrder i tx msg.

(** One call after the other; the errors returned, in call order. *)
Fixpoint UpdateAll (i : Inventory) (msgs : list RocketMessage)
    : option (Inventory * list (option error)) :=
  match msgs with
  | [] => Some (i, [])
  | msg :: rest =>
      match UpdateRocketState i msg with
      | None => None
      | Some (i', r) =>
          match UpdateAll i' rest with
          | None => None
          | Some (i'', rs) => Some (i'', r :: rs)
          end
      end
  end.

(** ** Which messages a handler rejects

    [processMessage] fails on a message type without a handler and on a
    payload that its handler's [json.Unmarshal] refuses. *)
Definition kinds : list string :=
  ["RocketLaunched"; "RocketSpeedIncreased"; "RocketSpeedDecreased"; "RocketExploded";
   "RocketMissionChanged"]%string.

Inductive Rejected (msg : RocketMessage) : error -> Prop :=
  | rejected_kind :
      MessageType (metadata msg) ∉ kinds ->
      Rejected msg ("invalid message type: " ++ MessageType (metadata msg))%string
  | rejected_launched err :
      MessageType (metadata msg) = "RocketLaunched"%string ->
      UnmarshalLaunched (message msg) = inl err -> Rejected msg err
  | rejected_increased err :
      MessageType (metadata msg) = "RocketSpeedIncreased"%string ->
      UnmarshalSpeedChanged (message msg) = inl err -> Rejected msg err
  | rejected_decreased err :
      MessageType (metadata msg) = "RocketSpeedDecreased"%string ->
      UnmarshalSpeedChanged (message msg) = inl err -> Rejected msg err
  | rejected_exploded err :
      MessageType (metadata msg) = "RocketExploded"%string ->
      UnmarshalExploded (message msg) = inl err -> Rejected msg err
  | rejected_mission err :
      MessageType (metadata msg) = "RocketMissionChanged"%string ->
      UnmarshalMissionChanged (message msg) = inl err -> Rejected msg err.

(** A valid event: a registered kind with a payload that decodes. *)
Inductive Valid (msg : RocketMessage) : Prop :=
  | valid_launched m :
      MessageType (metadata msg) = "RocketLaunched"%string ->
      UnmarshalLaunched (message msg) = inr m -> Valid msg
  | valid_increased m :
      MessageType (metadata msg) = "RocketSpeedIncreased"%string ->
      UnmarshalSpeedChanged (message msg) = inr m -> Valid msg
  | valid_decreased m :
      MessageType (metadata msg) = "RocketSpeedDecreased"%string ->
      UnmarshalSpeedChanged (message msg) = inr m -> Valid msg
  | valid_exploded m :
      MessageType (metadata msg) = "RocketExploded"%string ->
      UnmarshalExploded (message msg) = inr m -> Valid msg
  | valid_mission m :
      MessageType (metadata msg) = "RocketMissionChanged"%string ->
      UnmarshalMissionChanged (message msg) = inr m -> Valid msg.

(** The persisted watermark of a key. *)
Definition watermark (i : Inventory) (channel : string) : Z :=
  readLastMessageNumber (db i) channel.

End Inventory.

Abbreviation Buffers := (gmap string (list RocketMessage)).

(** The transitions of [msgs] applied one after the other in one
    transaction, stopping at the first error. *)
Fixpoint processAll `{Json} (tx : Rockets) (msgs : list RocketMessage) : error + Rockets :=
  match msgs with
  | [] => inr tx
  | msg :: rest =>
      match processMessage tx msg with
      | inl err => inl err
      | inr tx' => processAll tx' rest
      end
  end.

(** The events [es] applied in the order given, in one transaction: each
    transition followed by the watermark write of lines 113 and 140 for the
    channel [c]. *)
Fixpoint applyAll `{Json} (tx : Rockets) (c : string) (es : list RocketMessage)
    : error + Rockets :=
  match es with
  | [] => inr tx
  | e :: rest =>
      match processMessage tx e with
      | inl err => inl err
      | inr tx' => applyAll (setLastMessageNumber tx' c (number e)) c rest
      end
  end.

(** The events of [es] whose number is in [seen] and beyond [k]: of the
    events submitted so far, those that wait in the buffer. *)
Definition held `{Json} (es : list RocketMessage) (seen : gset Z) (k : Z) : list RocketMessage :=
  filter (fun m => number m ∈ seen /\ k < number m) es.

(** The inventory [i] after the events of [es] with numbers [seen] have been
    submitted to [i0], in any order: the first [k] events are applied, in
    order, event [k + 1] has not come, the others wait in the buffer. *)
Definition RunState `{Json} (i0 : Inventory) (c : string) (es : list RocketMessage)
    (seen : gset Z) (k : nat) (i : Inventory) : Prop :=
  (k <= length es)%nat /\
  (forall n, n ∈ seen -> 1 <= n <= Z.of_nat (length es)) /\
  (forall n, 1 <= n <= Z.of_nat k -> n ∈ seen) /\
  ((Z.of_nat k + 1) ∉ seen) /\
  applyAll (db i0) c (take k es) = inr (db i) /\
  buffered (messageBuffers i) c = held es seen (Z.of_nat k).

(** The [by] of a speed change, 0 where the payload does not decode. *)
Definition delta `{Json} (msg : RocketMessage) : Z :=
  match UnmarshalSpeedChanged (message msg) with
  | inr m => By m
  | inl _ => 0
  end.

(** A RocketSpeedIncreased message with a payload that decodes. *)
Definition IsSpeedIncreased `{Json} (msg : RocketMessage) : Prop :=
  MessageType (metadata msg) = "RocketSpeedIncreased"%string /\
  exists m, UnmarshalSpeedChanged (message msg) = inr m.

(** ** Inventories the service can be in *)

(** Every stored [last_message_number] is an [int]. *)
Definition db_ok (d : Rockets) : Prop :=
  forall c r, d !! c = Some r -> int_ok (last_message_number r).

(** From [NewInventory] on a table, by calls of [UpdateRocketState] with
    messages whose number is an [int]. *)
Inductive Reachable `{Json} : Inventory -> Prop :=
  | reachable_new d : db_ok d -> Reachable (NewInventory d)
  | reachable_update i msg i' r :
      Reachable i -> int_ok (number msg) -> UpdateRocketState i msg = Some (i', r) ->
      Reachable i'.

(** Strictly ascending message numbers. *)
Definition ascending `{Json} (l : list RocketMessage) : Prop :=
  StronglySorted (fun a b => number a < number b) l.

(** What the invariant says of one channel's buffer, against the number
    [w]: ascending, on the channel, within [int], all beyond [w + 1]. *)
Definition buffer_ok `{Json} (c : string) (w : Z) (l : list RocketMessage) : Prop :=
  ascending l /\
  forall m, m ∈ l -> Channel (metadata m) = c /\ int_ok (number m) /\ w + 1 < number m.

Definition invariant `{Json} (i : Inventory) : Prop :=
  db_ok (db i) /\
  forall c, buffer_ok c (watermark i c) (buffered (messageBuffers i) c).

(** Every status in the table is one of the two the handlers write. *)
Definition statuses_ok (tx : Rockets) : Prop :=
  forall c r s, tx !! c = Some r -> status r = Some s ->
    s = "launched"%string \/ s = "exploded"%string.

(** No row holds a negative speed. *)
Definition nonNegative (tx : Rockets) : Prop :=
  forall c r v, tx !! c = Some r -> speed r = Some v -> 0 <= v.

(** The message brings neither a negative launch speed nor a negative
    speed increase. *)
Definition nonNegativeInput `{Json} (msg : RocketMessage) : Prop :=
  (MessageType (metadata msg) = "RocketLaunched"%string ->
   forall m, UnmarshalLaunched (message msg) = inr m -> 0 <= LaunchSpeed m) /\
  (MessageType (metadata msg) = "RocketSpeedIncreased"%string ->
   forall m, UnmarshalSpeedChanged (message msg) = inr m -> 0 <= By m).

(** ** inventory.go on a store that may fail

    [UpdateRocketState] hands back the errors of [i.db.Begin] (line 70),
    of the watermark query (line 77), of each [tx.Exec] (in the handlers,
    lines 114 and 141) and of [tx.Commit] (lines 83, 105, 146).  Here the
    store is an oracle: statement number [k] of the call, counted from 0,
    fails with [st k].  After an error return the deferred [tx.Rollback()]
    drops the transaction; what the table holds after a failed [Commit] is
    the driver's matter and is left open. *)
Definition Store : Type := nat -> option error.

(** One statement on the store: its error, or the transaction as the
    statement leaves it. *)
Definition exec (st : Store) (k : nat) (tx : Rockets) : error + Rockets :=
  match st k with
  | Some err => inl err
  | None => inr tx
  end.

(** [processMessage] with the handler's [tx.Exec] as statement [k]: the
    handler is looked up and the payload decoded before the statement is
    sent. *)
Definition processMessageOn `{Json} (st : Store) (k : nat) (tx : Rockets)
    (msg : RocketMessage) : error + Rockets :=
  match processMessage tx msg with
  | inl err => inl err
  | inr tx' => exec st k tx'
  end.

(** The drain loop; an iteration that applies a message sends two
    statements, the handler's and the watermark write of line 140. *)
Fixpoint drainOn `{Json} (st : Store) (k : nat) (fuel : nat) (tx : Rockets) (bufs : Buffers)
    (channel : string) (lastMessageNumber : Z) : option (Buffers * (error + Rockets * nat)) :=
  match getNextMessage bufs channel (int_add lastMessageNumber 1) with
  | None => Some (bufs, inr (tx, k))
  | Some nextMsg =>
      match fuel with
      | O => None
      | S fuel' =>
          let bufs' := removeMessage bufs channel (number nextMsg) in
          if number nextMsg <=? lastMessageNumber then
            drainOn st k fuel' tx bufs' channel lastMessageNumber
          else
            match processMessageOn st k tx nextMsg with
            | inl err => Some (bufs', inl err)
            | inr tx' =>
                match exec st (S k) (setLastMessageNumber tx' channel (number nextMsg)) with
                | inl err => Some (bufs', inl err)
                | inr tx'' => drainOn st (S (S k)) fuel' tx'' bufs' channel (number nextMsg)
                end
            end
      end
  end.

(** How a call ends: it returns with the table and the buffers as they
    then are, or its [tx.Commit()] fails, which leaves the buffers known
    and the table to the driver. *)
Inductive Outcome `{Json} : Type :=
  | Returned (i : Inventory) (r : option error)
  | CommitFailed (bufs : Buffers) (err : error).

(** [return tx.Commit()] as statement [k]. *)
Definition commit `{Json} (st : Store) (k : nat) (tx : Rockets) (bufs : Buffers) : Outcome :=
  match st k with
  | Some err => CommitFailed bufs err
  | None => Returned {| db := tx; messageBuffers := bufs |} None
  end.

(** [UpdateRocketState] on the store [st]: [Begin] is statement 0, the
    watermark query statement 1 ([sql.ErrNoRows] is no failure). *)
Definition UpdateRocketStateOn `{Json} (st : Store) (i : Inventory) (msg : RocketMessage)
    : option Outcome :=
  let channel := Channel (metadata msg) in
  match st 0%nat with
  | Some err => Some (Returned i (Some err))
  | None =>
  match st 1%nat with
  | Some err => Some (Returned i (Some err))
  | None =>
      let tx := db i in
      let lastMessageNumber := readLastMessageNumber tx channel in
      if number msg <=? lastMessageNumber then
        Some (commit st 2 tx (messageBuffers i))
      else if number msg >? int_add lastMessageNumber 1 then
        Some (commit st 2 tx (bufferMessage (messageBuffers i) channel msg))
      else
        match processMessageOn st 2 tx msg with
        | inl err => Some (Returned i (Some err))
        | inr tx' =>
            match exec st 3 (setLastMessageNumber tx' channel (number msg)) with
            | inl err => Some (Returned i (Some err))
            | inr tx'' =>
                match drainOn st 4 (length (buffered (messageBuffers i) channel)) tx''
                        (messageBuffers i) channel (number msg) with
                | None => None
                | Some (bufs, inl err) =>
                    Some (Returned {| db := db i; messageBuffers := bufs |} (Some err))
                | Some (bufs, inr (txEnd, k)) => Some (commit st k txEnd bufs)
                end
            end
        end
  end
  end.

(** ** Where the SQL arithmetic is integer arithmetic *)

(** Every speed in the table is a 64-bit integer, as an INTEGER column
    holds it. *)
Definition intSpeeds (tx : Rockets) : Prop :=
  forall c r v, tx !! c = Some r -> speed r = Some v -> int_ok v.

(** The numbers of a decoded payload are [int]s, as the fields
    [LaunchSpeed] and [By] of the Go structs are. *)
Definition intInput `{Json} (msg : RocketMessage) : Prop :=
  (forall m, UnmarshalLaunched (message msg) = inr m -> int_ok (LaunchSpeed m)) /\
  (forall m, UnmarshalSpeedChanged (message msg) = inr m -> int_ok (By m)).

(** The [speed + ?] or [speed - ?] that the message brings on the table
    [tx] does not leave the 64-bit integers. *)
Definition noOverflow `{Json} (tx : Rockets) (msg : RocketMessage) : Prop :=
  forall m r v,
    UnmarshalSpeedChanged (message msg) = inr m ->
    tx !! Channel (metadata msg) = Some r -> speed r = Some v ->
    (MessageType (metadata msg) = "RocketSpeedIncreased"%string -> int_ok (v + By m)) /\
    (MessageType (metadata msg) = "RocketSpeedDecreased"%string -> int_ok (v - By m)).

(** The run of [processAll] on [msgs] from [tx] stays within the 64-bit
    integers: every payload brings [int]s, no statement overflows. *)
Fixpoint withinInt `{Json} (tx : Rockets) (msgs : list RocketMessage) : Prop :=
  match msgs with
  | [] => True
  | msg :: rest =>
      intInput msg /\ noOverflow tx msg /\
      match processMessage tx msg with
      | inl _ => True
      | inr tx' => withinInt tx' rest
      end
  end.

(** ** rockets-queries: the read path

    The queries read the committed table; they see nothing of the reorder
    buffers. *)
Module queries.

Record RocketState : Type := {
  Channel : string;
  Type_ : option string;
  Speed : option Z;
  Mission : option string;
  Status : option string }.

(** [Scan] of one row into the nullable holders, and the copy of the valid
    ones into the pointer fields. *)
Definition scan (channel : string) (r : Rocket) : RocketState :=
  {| Channel := channel; Type_ := type r; Speed := speed r; Mission := mission r;
     Status := status r |}.

Definition GetRocket (d : Rockets) (channel : string) : error + RocketState :=
  match d !! channel with
  | None => inl "rocket not found"%string
  | Some r => inr (scan channel r)
  end.

(** The column of the ORDER BY clause. *)
Inductive Column : Type := ByChannel | BySpeed | ByMission | ByStatus.

(** The [switch] of [ListRockets]. *)
Definition orderBy (sortBy : string) : Column :=
  if String.eqb sortBy "speed" then BySpeed
  else if String.eqb sortBy "mission" then ByMission
  else if String.eqb sortBy "status" then ByStatus
  else ByChannel.

(** ASC in SQLite: NULL before every value, integers by value, text byte
    by byte. *)
Definition nullsFirst {A : Type} (le : A -> A -> bool) (x y : option A) : bool :=
  match x, y with
  | None, _ => true
  | Some _, None => false
  | Some a, Some b => le a b
  end.

Definition ordered (col : Column) (x y : string * Rocket) : Prop :=
  match col with
  | ByChannel => String.leb x.1 y.1 = true
  | BySpeed => nullsFirst Z.leb (speed x.2) (speed y.2) = true
  | ByMission => nullsFirst String.leb (mission x.2) (mission y.2) = true
  | ByStatus => nullsFirst String.leb (status x.2) (status y.2) = true
  end.

(** [ListRockets d sortBy rockets]: [rockets] is a result of the query, the
    rows of the table in an order that is ascending in the chosen column.
    SQL leaves the order of rows with equal values open, hence a relation. *)
Definition ListRockets (d : Rockets) (sortBy : string) (rockets : list RocketState) : Prop :=
  exists rows,
    rows ≡ₚ map_to_list d /\
    StronglySorted (ordered (orderBy sortBy)) rows /\
    rockets = (fun row => scan row.1 row.2) <$> rows.

End queries.

(** ** api: the HTTP handlers

    What a handler writes to its [http.ResponseWriter]: the status code
    and the body.  The bodies are kept as values: [http.Error] writes the
    error text, the JSON encoder the status map, a rocket or a list. *)
Module api.

Inductive Body : Type :=
  | ErrorText (err : error)
  | MessageProcessed
  | OneRocket (rocket : queries.RocketState)
  | ManyRockets (rockets : list queries.RocketState).

Record Response : Type := {
  StatusCode : Z;
  Content : Body }.

Definition StatusOK : Z := 200.
Definition StatusBadRequest : Z := 400.
Definition StatusNotFound : Z := 404.

(** [handleMessage] on the outcome [decoded] of decoding the request body
    into a [RocketMessage]. *)
Definition handleMessage `{Json} (i : Inventory) (decoded : error + RocketMessage)
    : option (Inventory * Response) :=
  match decoded with
  | inl err => Some (i, {| StatusCode := StatusBadRequest; Content := ErrorText err |})
  | inr msg =>
      match UpdateRocketState i msg with
      | None => None
      | Some (i', Some err) =>
          Some (i', {| StatusCode := StatusBadRequest; Content := ErrorText err |})
      | Some (i', None) =>
          Some (i', {| StatusCode := StatusOK; Content := MessageProcessed |})
      end
  end.

(** [handleRockets]: without a call of [WriteHeader] the first write
    answers 200. *)
Definition handleRockets (d : Rockets) (channel : string) : Response :=
  match queries.GetRocket d channel with
  | inl err => {| StatusCode := StatusNotFound; Content := ErrorText err |}
  | inr rocket => {| StatusCode := StatusOK; Content := OneRocket rocket |}
  end.

End api.

(** ** inventory.go: the lock registry

    [getLock] under the registry's own mutex.  A mutex is known by its
    identity alone; identities are numbered in the order of allocation. *)
Record LockRegistry : Type := {
  locks : gmap string nat;
  allocated : nat }.

Definition NewLockRegistry : LockRegistry := {| locks := ∅; allocated := 0 |}.

Definition getLock (reg : LockRegistry) (channel : string) : nat * LockRegistry :=
  match locks reg !! channel with
  | Some lock => (lock, reg)
  | None =>
      (allocated reg,
       {| locks := <[channel := allocated reg]> (locks reg);
          allocated := S (allocated reg) |})
  end.

(** The registries that calls of [getLock] lead to. *)
Inductive LocksReachable : LockRegistry -> Prop :=
  | locks_new : LocksReachable NewLockRegistry
  | locks_get reg channel : LocksReachable reg -> LocksReachable (getLock reg channel).2.

(** ** A decoder for closed examples

    Payloads as parsed JSON documents.  The decoders follow
    [json.Unmarshal] on documents whose object keys are spelled as in the
    struct tags and whose numbers are integer literals that fit an [int]:
    a missing or null member leaves the zero value, the last of several
    members wins, a member of the wrong JSON type or a document that is
    neither an object nor null is an error.  The error texts are not those
    of [encoding/json]. *)
#[warnings="-register-all"]
Inductive JsonValue : Type :=
  | JNull
  | JBool (b : bool)
  | JNumber (z : Z)
  | JString (s : string)
  | JArray (items : list JsonValue)
  | JObject (members : list (string * JsonValue)).

Definition typeError : error := "json: cannot unmarshal value into Go struct field"%string.

Fixpoint stringMember (key : string) (members : list (string * JsonValue)) (acc : string)
    : error + string :=
  match members with
  | [] => inr acc
  | (k, v) :: rest =>
      if String.eqb k key then
        match v with
        | JString s => stringMember key rest s
        | JNull => stringMember key rest acc
        | _ => inl typeError
        end
      else stringMember key rest acc
  end.

Fixpoint intMember (key : string) (members : list (string * JsonValue)) (acc : Z)
    : error + Z :=
  match members with
  | [] => inr acc
  | (k, v) :: rest =>
      if String.eqb k key then
        match v with
        | JNumber z => intMember key rest z
        | JNull => intMember key rest acc
        | _ => inl typeError
        end
      else intMember key rest acc
  end.

Definition docMembers (doc : JsonValue) : error + list (string * JsonValue) :=
  match doc with
  | JObject members => inr members
  | JNull => inr []
  | _ => inl typeError
  end.

Definition docLaunched (doc : JsonValue) : error + RocketLaunchedMessage :=
  match docMembers doc with
  | inl err => inl err
  | inr ms =>
      match stringMember "type" ms "", intMember "launchSpeed" ms 0,
            stringMember "mission" ms "" with
      | inr t, inr s, inr m => inr {| Type_ := t; LaunchSpeed := s; Mission := m |}
      | _, _, _ => inl typeError
      end
  end.

Definition docSpeedChanged (doc : JsonValue) : error + RocketSpeedChangedMessage :=
  match docMembers doc with
  | inl err => inl err
  | inr ms =>
      match intMember "by" ms 0 with
      | inr d => inr {| By := d |}
      | inl err => inl err
      end
  end.

Definition docExploded (doc : JsonValue) : error + RocketExplodedMessage :=
  match docMembers doc with
  | inl err => inl err
  | inr ms =>
      match stringMember "reason" ms "" with
      | inr r => inr {| Reason := r |}
      | inl err => inl err
      end
  end.

Definition docMissionChanged (doc : JsonValue) : error + RocketMissionChangedMessage :=
  match docMembers doc with
  | inl err => inl err
  | inr ms =>
      match stringMember "newMission" ms "" with
      | inr m => inr {| NewMission := m |}
      | inl err => inl err
      end
  end.

Definition JsonDoc : Json :=
  {| RawMessage := JsonValue;
     UnmarshalLaunched := docLaunched;
     UnmarshalSpeedChanged := docSpeedChanged;
     UnmarshalExploded := docExploded;
     UnmarshalMissionChanged := docMissionChanged |}.

(** Test data in the style of inventory_test.go. *)
Definition mkMessage (channel : string) (n : Z) (kind : string) (doc : JsonValue)
    : @RocketMessage JsonDoc :=
  @Build_RocketMessage JsonDoc
    {| Channel := channel; MessageNumber := n; MessageTime := ""; MessageType := kind |}
    doc.

Definition launchedDoc (t : string) (s : Z) (m : string) : JsonValue :=
  JObject [("type"%string, JString t); ("launchSpeed"%string, JNumber s);
           ("mission"%string, JString m)].

Definition byDoc (d : Z) : JsonValue := JObject [("by"%string, JNumber d)].

Definition launched (n : Z) (s : Z) : @RocketMessage JsonDoc :=
  mkMessage "test-channel" n "RocketLaunched" (launchedDoc "Falcon-9" s "ARTEMIS").

Definition launchedOn (channel : string) (n : Z) (mission : string) : @RocketMessage JsonDoc :=
  mkMessage channel n "RocketLaunched" (launchedDoc "Falcon-9" 500 mission).

Definition speedIncreased (n : Z) (d : Z) : @RocketMessage JsonDoc :=
  mkMessage "test-channel" n "RocketSpeedIncreased" (byDoc d).

Definition speedDecreased (n : Z) (d : Z) : @RocketMessage JsonDoc :=
  mkMessage "test-channel" n "RocketSpeedDecreased" (byDoc d).

Definition exploded (n : Z) : @RocketMessage JsonDoc :=
  mkMessage "test-channel" n "RocketExploded"
    (JObject [("reason"%string, JString "PRESSURE_VESSEL_FAILURE")]).

Definition bogus (n : Z) : @RocketMessage JsonDoc :=
  mkMessage "test-channel" n "Bogus" (JObject []).

(** Two launched rockets, and their rows once they are applied. *)
Definition twoRockets : list (@RocketMessage JsonDoc) :=
  [launched 1 500; launchedOn "chan2" 1 "APOLLO"].

Definition rowOf (mission : string) : Rocket :=
  {| type := Some "Falcon-9"%string; speed := Some 500; mission := Some mission;
     status := Some "launched"%string; last_message_number := 1 |}.

Definition emptyInventory : @Inventory JsonDoc := NewInventory ∅.

(** The inventory after the calls [msgs] on an empty table, and what the
    calls returned. *)
Definition after (msgs : list (@RocketMessage JsonDoc)) : @Inventory JsonDoc :=
  match UpdateAll emptyInventory msgs with
  | Some (i, _) => i
  | None => emptyInventory
  end.

Definition returned (msgs : list (@RocketMessage JsonDoc)) : list (option error) :=
  match UpdateAll emptyInventory msgs with
  | Some (_, rs) => rs
  | None => []
  end.

(** * Properties *)

Section Properties.
Context `{Json}.

Implicit Types (i : Inventory) (msg : RocketMessage) (tx : Rockets) (bufs : Buffers).
Implicit Types (channel c : string) (err : error).

(** ** Integers *)

Lemma wrap_id z : int_ok z -> wrap z = z.
Proof.
  unfold int_ok, MinInt, MaxInt, wrap. intros Hz.
  rewrite Z.mod_small; lia.
Qed.

Lemma wrap_ok z : int_ok (wrap z).
Proof.
  unfold int_ok, MinInt, MaxInt, wrap.
  pose proof (Z.mod_pos_bound (z + 2 ^ 63) (2 ^ 64)). lia.
Qed.

Lemma int_add_1 l n : int_ok n -> n = l + 1 -> int_add l 1 = n.
Proof. intros Hn ->. by apply wrap_id. Qed.

(** ** The handler table *)

Lemma MessageHandlers_lookup kind :
  MessageHandlers !! kind =
    if decide (kind = "RocketLaunched"%string) then Some RocketLaunchedHandler
    else if decide (kind = "RocketSpeedIncreased"%string) then Some RocketSpeedIncreasedHandler
    else if decide (kind = "RocketSpeedDecreased"%string) then Some RocketSpeedDecreasedHandler
    else if decide (kind = "RocketExploded"%string) then Some RocketExplodedHandler
    else if decide (kind = "RocketMissionChanged"%string) then Some RocketMissionChangedHandler
    else None.
Proof.
  unfold MessageHandlers. rewrite !lookup_insert, lookup_empty.
  repeat case_decide; congruence.
Qed.

Lemma MessageHandlers_unknown kind :
  kind ∉ kinds -> MessageHandlers !! kind = None.
Proof.
  unfold kinds. rewrite !not_elem_of_cons. intros (? & ? & ? & ? & ? & _).
  rewrite MessageHandlers_lookup. by repeat case_decide.
Qed.

Lemma processMessage_launched tx msg m :
  MessageType (metadata msg) = "RocketLaunched"%string ->
  UnmarshalLaunched (message msg) = inr m ->
  processMessage tx msg =
    inr (upsertLaunched tx (Channel (metadata msg)) m (number msg)).
Proof.
  intros Hk Hm. unfold processMessage. rewrite Hk, MessageHandlers_lookup. simpl.
  by rewrite Hm.
Qed.

Lemma processMessage_increased tx msg m :
  MessageType (metadata msg) = "RocketSpeedIncreased"%string ->
  UnmarshalSpeedChanged (message msg) = inr m ->
  processMessage tx msg =
    inr (updateSpeedIncreased tx (Channel (metadata msg)) (By m) (number msg)).
Proof.
  intros Hk Hm. unfold processMessage. rewrite Hk, MessageHandlers_lookup. simpl.
  by rewrite Hm.
Qed.

Lemma processMessage_decreased tx msg m :
  MessageType (metadata msg) = "RocketSpeedDecreased"%string ->
  UnmarshalSpeedChanged (message msg) = inr m ->
  processMessage tx msg =
    inr (updateSpeedDecreased tx (Channel (metadata msg)) (By m) (number msg)).
Proof.
  intros Hk Hm. unfold processMessage. rewrite Hk, MessageHandlers_lookup. simpl.
  by rewrite Hm.
Qed.

Lemma processMessage_exploded tx msg m :
  MessageType (metadata msg) = "RocketExploded"%string ->
  UnmarshalExploded (message msg) = inr m ->
  processMessage tx msg = inr (updateExploded tx (Channel (metadata msg)) (number msg)).
Proof.
  intros Hk Hm. unfold processMessage. rewrite Hk, MessageHandlers_lookup. simpl.
  by rewrite Hm.
Qed.

Lemma processMessage_mission tx msg m :
  MessageType (metadata msg) = "RocketMissionChanged"%string ->
  UnmarshalMissionChanged (message msg) = inr m ->
  processMessage tx msg =
    inr (updateMissionChanged tx (Channel (metadata msg)) (NewMission m) (number msg)).
Proof.
  intros Hk Hm. unfold processMessage. rewrite Hk, MessageHandlers_lookup. simpl.
  by rewrite Hm.
Qed.

Lemma processMessage_unknown tx msg :
  MessageType (metadata msg) ∉ kinds ->
  processMessage tx msg = inl ("invalid message type: " ++ MessageType (metadata msg))%string.
Proof. intros Hk. unfold processMessage. by rewrite MessageHandlers_unknown. Qed.

(** [processMessage] fails exactly on the rejected messages, whatever the
    transaction holds. *)
Lemma processMessage_rejected tx msg err :
  processMessage tx msg = inl err <-> Rejected msg err.
Proof.
  split.
  - unfold processMessage. rewrite MessageHandlers_lookup.
    repeat case_decide; simpl.
    + destruct (UnmarshalLaunched _) eqn:E; [|done]. intros [= <-]. by eapply rejected_launched.
    + destruct (UnmarshalSpeedChanged _) eqn:E; [|done]. intros [= <-].
      by eapply rejected_increased.
    + destruct (UnmarshalSpeedChanged _) eqn:E; [|done]. intros [= <-].
      by eapply rejected_decreased.
    + destruct (UnmarshalExploded _) eqn:E; [|done]. intros [= <-]. by eapply rejected_exploded.
    + destruct (UnmarshalMissionChanged _) eqn:E; [|done]. intros [= <-].
      by eapply rejected_mission.
    + intros [= <-]. apply rejected_kind. unfold kinds. rewrite !not_elem_of_cons.
      repeat split; try done. apply not_elem_of_nil.
  - unfold processMessage. rewrite MessageHandlers_lookup.
    destruct 1 as [Hk|err Hk Hm|err Hk Hm|err Hk Hm|err Hk Hm|err Hk Hm].
    + unfold kinds in Hk. rewrite !not_elem_of_cons in Hk.
      destruct Hk as (? & ? & ? & ? & ? & _). by repeat case_decide.
    + rewrite Hk. simpl. by rewrite Hm.
    + rewrite Hk. simpl. by rewrite Hm.
    + rewrite Hk. simpl. by rewrite Hm.
    + rewrite Hk. simpl. by rewrite Hm.
    + rewrite Hk. simpl. by rewrite Hm.
Qed.

Lemma processMessage_valid tx msg :
  Valid msg -> exists tx', processMessage tx msg = inr tx'.
Proof.
  destruct 1 as [m Hk Hm|m Hk Hm|m Hk Hm|m Hk Hm|m Hk Hm]; eexists.
  - by apply processMessage_launched.
  - by apply processMessage_increased.
  - by apply processMessage_decreased.
  - by eapply processMessage_exploded.
  - by apply processMessage_mission.
Qed.

(** ** The transitions *)

Lemma decreased_max d v : decreased d v = Z.max 0 (v - d).
Proof. unfold decreased. destruct (Z.ltb_spec (v - d) 0); lia. Qed.

Lemma processMessage_nonNegative tx msg tx' :
  nonNegative tx -> nonNegativeInput msg -> processMessage tx msg = inr tx' ->
  nonNegative tx'.
Proof.
  intros Htx [HL HI]. unfold processMessage. rewrite MessageHandlers_lookup.
  repeat case_decide; simpl; try done.
  - destruct (UnmarshalLaunched _) as [|m] eqn:E; [done|]. intros [= <-] c r v.
    unfold upsertLaunched. rewrite lookup_insert. case_decide.
    + intros [= <-]. simpl. intros [= <-]. exact (HL ltac:(done) m eq_refl).
    + apply Htx.
  - destruct (UnmarshalSpeedChanged _) as [|m] eqn:E; [done|]. intros [= <-] c r v.
    unfold updateSpeedIncreased. rewrite lookup_alter. case_decide; [subst c|apply Htx].
    destruct (tx !! _) as [r0|] eqn:Er; [|done]. simpl. intros [= <-]. simpl.
    destruct (speed r0) as [v0|] eqn:Ev; [|done]. simpl. intros [= <-].
    specialize (Htx _ _ _ Er Ev). specialize (HI ltac:(done) m eq_refl). lia.
  - destruct (UnmarshalSpeedChanged _) as [|m] eqn:E; [done|]. intros [= <-] c r v.
    unfold updateSpeedDecreased. rewrite lookup_alter. case_decide; [subst c|apply Htx].
    destruct (tx !! _) as [r0|] eqn:Er; [|done]. simpl. intros [= <-]. simpl.
    destruct (speed r0) as [v0|] eqn:Ev; [|done]. simpl. intros [= <-].
    rewrite decreased_max. lia.
  - destruct (UnmarshalExploded _) as [|m] eqn:E; [done|]. intros [= <-] c r v.
    unfold updateExploded. rewrite lookup_alter. case_decide; [subst c|apply Htx].
    destruct (tx !! _) as [r0|] eqn:Er; [|done]. simpl. intros [= <-]. simpl.
    intros Hv. by eapply Htx.
  - destruct (UnmarshalMissionChanged _) as [|m] eqn:E; [done|]. intros [= <-] c r v.
    unfold updateMissionChanged. rewrite lookup_alter. case_decide; [subst c|apply Htx].
    destruct (tx !! _) as [r0|] eqn:Er; [|done]. simpl. intros [= <-]. simpl.
    intros Hv. by eapply Htx.
Qed.

(** A transition that does not overflow leaves 64-bit speeds. *)
Lemma processMessage_intSpeeds tx msg tx' :
  intSpeeds tx -> intInput msg -> noOverflow tx msg -> processMessage tx msg = inr tx' ->
  intSpeeds tx'.
Proof.
  intros Htx [HL HB] Hno. unfold processMessage. rewrite MessageHandlers_lookup.
  repeat case_decide; simpl; try done.
  - destruct (UnmarshalLaunched _) as [|m] eqn:E; [done|]. intros [= <-] c r v.
    unfold upsertLaunched. rewrite lookup_insert. case_decide.
    + intros [= <-]. simpl. intros [= <-]. by apply HL.
    + apply Htx.
  - destruct (UnmarshalSpeedChanged _) as [|m] eqn:E; [done|]. intros [= <-] c r v.
    unfold updateSpeedIncreased. rewrite lookup_alter. case_decide; [subst c|apply Htx].
    destruct (tx !! _) as [r0|] eqn:Er; [|done]. simpl. intros [= <-]. simpl.
    destruct (speed r0) as [v0|] eqn:Ev; [|done]. simpl. intros [= <-].
    by apply (Hno m r0 v0 E Er Ev).
  - destruct (UnmarshalSpeedChanged _) as [|m] eqn:E; [done|]. intros [= <-] c r v.
    unfold updateSpeedDecreased. rewrite lookup_alter. case_decide; [subst c|apply Htx].
    destruct (tx !! _) as [r0|] eqn:Er; [|done]. simpl. intros [= <-]. simpl.
    destruct (speed r0) as [v0|] eqn:Ev; [|done]. simpl. intros [= <-].
    destruct (Hno m r0 v0 E Er Ev) as [_ Hd]. specialize (Hd ltac:(done)).
    rewrite decreased_max. unfold int_ok, MinInt, MaxInt in *. lia.
  - destruct (UnmarshalExploded _) as [|m] eqn:E; [done|]. intros [= <-] c r v.
    unfold updateExploded. rewrite lookup_alter. case_decide; [subst c|apply Htx].
    destruct (tx !! _) as [r0|] eqn:Er; [|done]. simpl. intros [= <-]. simpl.
    intros Hv. by eapply Htx.
  - destruct (UnmarshalMissionChanged _) as [|m] eqn:E; [done|]. intros [= <-] c r v.
    unfold updateMissionChanged. rewrite lookup_alter. case_decide; [subst c|apply Htx].
    destruct (tx !! _) as [r0|] eqn:Er; [|done]. simpl. intros [= <-]. simpl.
    intros Hv. by eapply Htx.
Qed.

(** C5 (amended).  Within the 64-bit integers, that is for [int]s [v] and
    [d] whose difference [v - d] is an [int] too, a SpeedDecreased
    transition with delta [d] on a row of speed [v] sets the speed to
    [max 0 (v - d)]; and a sequence of applied transitions that brings no
    negative launch speed and no negative speed increase, and that stays
    within the 64-bit integers, leaves a table of non-negative 64-bit speeds
    as it found it: no speed is negative. *)
Theorem speed_decreased_clamps :
  (forall tx msg m r v,
     MessageType (metadata msg) = "RocketSpeedDecreased"%string ->
     UnmarshalSpeedChanged (message msg) = inr m ->
     tx !! Channel (metadata msg) = Some r -> speed r = Some v ->
     int_ok v -> int_ok (By m) -> int_ok (v - By m) ->
     exists tx' r',
       processMessage tx msg = inr tx' /\
       tx' !! Channel (metadata msg) = Some r' /\
       speed r' = Some (Z.max 0 (v - By m))) /\
  (forall msgs tx tx',
     nonNegative tx -> intSpeeds tx ->
     Forall nonNegativeInput msgs -> withinInt tx msgs ->
     processAll tx msgs = inr tx' ->
     nonNegative tx' /\ intSpeeds tx').
Proof.
  split.
  - intros tx msg m r v Hk Hm Hr Hv _ _ _.
    eexists _, _. split; [by apply processMessage_decreased|].
    unfold updateSpeedDecreased. rewrite lookup_alter_eq, Hr. simpl. split; [done|].
    simpl. by rewrite Hv, <-decreased_max.
  - induction msgs as [|msg msgs IH]; intros tx tx' Htx Hint Hin Hfit; simpl.
    + by intros [= <-].
    + apply Forall_cons in Hin as [Hmsg Hin]. simpl in Hfit.
      destruct Hfit as (Hi & Hno & Hfit).
      destruct (processMessage tx msg) as [|tx1] eqn:E; [done|].
      apply IH; [| |done|done].
      * by eapply processMessage_nonNegative.
      * by eapply processMessage_intSpeeds.
Qed.

(** C6 (amended).  For a message type without a handler, [processMessage]
    returns the error "invalid message type: " followed by the type. *)
Theorem unknown_kind_error_text tx msg :
  MessageType (metadata msg) ∉ kinds ->
  processMessage tx msg =
    inl ("invalid message type: " ++ MessageType (metadata msg))%string.
Proof. apply processMessage_unknown. Qed.

(** ** UpdateRocketState, arm by arm *)

Lemma UpdateRocketState_duplicate i msg :
  number msg <= watermark i (Channel (metadata msg)) ->
  UpdateRocketState i msg = Some (i, None).
Proof.
  intros Hle. unfold UpdateRocketState, watermark in *.
  destruct (Z.leb_spec (number msg) (readLastMessageNumber (db i) (Channel (metadata msg))));
    [|lia]. by destruct i.
Qed.

Lemma UpdateRocketState_in_order i msg :
  int_ok (number msg) ->
  number msg = watermark i (Channel (metadata msg)) + 1 ->
  UpdateRocketState i msg = applyInOrder i (db i) msg.
Proof.
  intros Hok Hn. unfold UpdateRocketState, watermark in *.
  rewrite (int_add_1 _ (number msg)) by done.
  destruct (Z.leb_spec (number msg) (readLastMessageNumber (db i) (Channel (metadata msg))));
    [lia|].
  destruct (Z.gtb_spec (number msg) (number msg)); [lia|done].
Qed.

(** C2.  An event at watermark + 1 that the registry rejects (no handler
    for its kind, or a payload that does not decode) makes
    [UpdateRocketState] return the error and leave the inventory as it was:
    row, watermark and reorder buffer.  On a key without a row, that is no
    row and watermark 0. *)
Theorem rejected_in_order_event_changes_nothing i msg err :
  int_ok (number msg) ->
  number msg = watermark i (Channel (metadata msg)) + 1 ->
  Rejected msg err ->
  UpdateRocketState i msg = Some (i, Some err) /\
  (db i !! Channel (metadata msg) = None ->
   number msg = 1 /\
   exists i', UpdateRocketState i msg = Some (i', Some err) /\
     db i' !! Channel (metadata msg) = None /\
     watermark i' (Channel (metadata msg)) = 0 /\
     messageBuffers i' = messageBuffers i).
Proof.
  intros Hok Hn Hrej.
  assert (UpdateRocketState i msg = Some (i, Some err)) as Hu.
  { rewrite UpdateRocketState_in_order by done. unfold applyInOrder.
    apply (processMessage_rejected (db i)) in Hrej. by rewrite Hrej. }
  split; [done|]. intros Hrow.
  assert (watermark i (Channel (metadata msg)) = 0) as Hw.
  { unfold watermark, readLastMessageNumber. by rewrite Hrow. }
  split; [lia|]. by exists i.
Qed.

(** ** The reorder buffer *)

Lemma buffered_insert bufs c c' (l : list RocketMessage) :
  buffered (<[c := l]> bufs) c' = if decide (c = c') then l else buffered bufs c'.
Proof. unfold buffered. rewrite lookup_insert. by case_decide. Qed.

Lemma buffered_removeMessage bufs c c' n :
  buffered (removeMessage bufs c n) c' =
    if decide (c = c') then filter (fun m => number m ≠ n) (buffered bufs c)
    else buffered bufs c'.
Proof. unfold removeMessage. apply buffered_insert. Qed.

Lemma removeMessage_other bufs c c' n : c ≠ c' -> removeMessage bufs c n !! c' = bufs !! c'.
Proof. intros. unfold removeMessage. by rewrite lookup_insert_ne. Qed.

Lemma find_number_Some (l : list RocketMessage) n m :
  List.find (fun x => number x =? n) l = Some m -> m ∈ l /\ number m = n.
Proof.
  intros [Hin Hn]%find_some. apply list_elem_of_In in Hin. split; [done|]. lia.
Qed.

Lemma find_number_None (l : list RocketMessage) n :
  List.find (fun x => number x =? n) l = None <-> forall m, m ∈ l -> number m ≠ n.
Proof.
  split.
  - intros Hnone m Hin%list_elem_of_In. apply (find_none _ _ Hnone) in Hin. lia.
  - intros Hall. induction l as [|x l IH]; [done|]. simpl.
    destruct (Z.eqb_spec (number x) n) as [Heq|_].
    + exfalso. eapply Hall; [left|done].
    + apply IH. intros m Hm. apply Hall. by right.
Qed.

Lemma getNextMessage_Some bufs c n m :
  getNextMessage bufs c n = Some m -> m ∈ buffered bufs c /\ number m = n.
Proof. apply find_number_Some. Qed.

Lemma getNextMessage_None bufs c n :
  getNextMessage bufs c n = None <-> forall m, m ∈ buffered bufs c -> number m ≠ n.
Proof. apply find_number_None. Qed.

Lemma removeMessage_shorter bufs c m :
  m ∈ buffered bufs c ->
  (length (buffered (removeMessage bufs c (number m)) c) < length (buffered bufs c))%nat.
Proof.
  intros Hin. rewrite buffered_removeMessage. case_decide; [|done].
  eapply length_filter_lt; [done|]. by intros [].
Qed.

Lemma removeMessage_sublist bufs c n :
  buffered (removeMessage bufs c n) c `sublist_of` buffered bufs c.
Proof. rewrite buffered_removeMessage. case_decide; [|done]. apply sublist_filter. Qed.

(** ** The drain loop *)

(** Induction along the iterations of the loop. *)
Lemma drain_elim c (P : Rockets -> Buffers -> Z -> Buffers * (error + Rockets) -> Prop) :
  (forall tx bufs L,
     getNextMessage bufs c (int_add L 1) = None -> P tx bufs L (bufs, inr tx)) ->
  (forall tx bufs L next r,
     getNextMessage bufs c (int_add L 1) = Some next -> number next <= L ->
     P tx (removeMessage bufs c (number next)) L r -> P tx bufs L r) ->
  (forall tx bufs L next err,
     getNextMessage bufs c (int_add L 1) = Some next -> L < number next ->
     processMessage tx next = inl err ->
     P tx bufs L (removeMessage bufs c (number next), inl err)) ->
  (forall tx bufs L next tx' r,
     getNextMessage bufs c (int_add L 1) = Some next -> L < number next ->
     processMessage tx next = inr tx' ->
     P (setLastMessageNumber tx' c (number next)) (removeMessage bufs c (number next))
       (number next) r ->
     P tx bufs L r) ->
  forall fuel tx bufs L r, drain fuel tx bufs c L = Some r -> P tx bufs L r.
Proof.
  intros Hbreak Hcontinue Herror Hstep.
  induction fuel as [|fuel IH]; intros tx bufs L r; simpl;
    destruct (getNextMessage bufs c (int_add L 1)) as [next|] eqn:Hnext;
    try done; try (intros [= <-]; by apply Hbreak).
  destruct (Z.leb_spec (number next) L) as [Hle|Hlt].
  - intros Hd. eapply Hcontinue; [done..|]. by apply IH.
  - destruct (processMessage tx next) as [err|tx'] eqn:Hp.
    + intros [= <-]. by apply Herror.
    + intros Hd. eapply Hstep; [done..|]. by apply IH.
Qed.

(** The loop ends within as many iterations as the buffer holds messages. *)
Lemma drain_total fuel tx bufs c L :
  (length (buffered bufs c) <= fuel)%nat -> exists r, drain fuel tx bufs c L = Some r.
Proof.
  revert tx bufs L. induction fuel as [|fuel IH]; intros tx bufs L Hlen; simpl;
    destruct (getNextMessage bufs c (int_add L 1)) as [next|] eqn:Hnext; eauto.
  - apply getNextMessage_Some in Hnext as [Hin _].
    destruct (buffered bufs c); [by apply not_elem_of_nil in Hin|simpl in Hlen; lia].
  - apply getNextMessage_Some in Hnext as [Hin _].
    pose proof (removeMessage_shorter _ _ _ Hin).
    destruct (number next <=? L); [apply IH; lia|].
    destruct (processMessage tx next); [eauto|apply IH; lia].
Qed.

(** The loop only removes messages, and only from the channel's buffer. *)
Lemma drain_buffers fuel tx bufs c L bufs' res :
  drain fuel tx bufs c L = Some (bufs', res) ->
  buffered bufs' c `sublist_of` buffered bufs c /\
  (forall c', c ≠ c' -> bufs' !! c' = bufs !! c').
Proof.
  intros Hd.
  refine (drain_elim c
    (fun tx bufs L r => buffered r.1 c `sublist_of` buffered bufs c /\
                        (forall c', c ≠ c' -> r.1 !! c' = bufs !! c'))
    _ _ _ _ fuel tx bufs L (bufs', res) Hd); clear; simpl.
  - done.
  - intros tx bufs L next r _ _ [Hsub Hother]. split.
    + etrans; [done|]. apply removeMessage_sublist.
    + intros c' Hc'. rewrite Hother by done. by apply removeMessage_other.
  - intros tx bufs L next err _ _ _. split; [apply removeMessage_sublist|].
    intros c' Hc'. by apply removeMessage_other.
  - intros tx bufs L next tx' r _ _ _ [Hsub Hother]. split.
    + etrans; [done|]. apply removeMessage_sublist.
    + intros c' Hc'. rewrite Hother by done. by apply removeMessage_other.
Qed.

(** Whatever the loop does afterwards, the number it looked for first is
    gone from the buffer. *)
Lemma drain_next_gone fuel tx bufs c L bufs' res :
  drain fuel tx bufs c L = Some (bufs', res) ->
  getNextMessage bufs' c (int_add L 1) = None.
Proof.
  intros Hd.
  assert (forall n bufs0, buffered bufs' c `sublist_of` buffered (removeMessage bufs0 c n) c ->
            getNextMessage bufs' c n = None) as Hgone.
  { intros n bufs0 Hsub. apply getNextMessage_None. intros m Hm Hn.
    eapply elem_of_sublist in Hm; [|done]. rewrite buffered_removeMessage in Hm.
    case_decide; [|done]. by apply list_elem_of_filter in Hm as [? _]. }
  destruct fuel as [|fuel]; simpl in Hd;
    destruct (getNextMessage bufs c (int_add L 1)) as [next|] eqn:Hnext;
    try done; try by simplify_eq.
  apply getNextMessage_Some in Hnext as [_ <-].
  destruct (number next <=? L).
  { apply drain_buffers in Hd as [Hsub _]. by eapply Hgone. }
  destruct (processMessage tx next).
  - simplify_eq. by eapply Hgone.
  - apply drain_buffers in Hd as [Hsub _]. by eapply Hgone.
Qed.

(** An error out of the loop is the registry's refusal of a message that
    the loop took out of the buffer. *)
Lemma drain_error fuel tx bufs c L bufs' err :
  drain fuel tx bufs c L = Some (bufs', inl err) ->
  exists bad, bad ∈ buffered bufs c /\ Rejected bad err /\
    forall m, m ∈ buffered bufs' c -> number m ≠ number bad.
Proof.
  intros Hd.
  refine (drain_elim c
    (fun tx bufs L r => forall bufs' err, r = (bufs', inl err) ->
       exists bad, bad ∈ buffered bufs c /\ Rejected bad err /\
         forall m, m ∈ buffered bufs' c -> number m ≠ number bad)
    _ _ _ _ fuel tx bufs L (bufs', inl err) Hd bufs' err eq_refl); clear.
  - done.
  - intros tx bufs L next r _ _ IH bufs' err ->.
    destruct (IH _ _ eq_refl) as (bad & Hin & Hrej & Hgone). exists bad.
    split; [|done]. eapply elem_of_sublist; [done|apply removeMessage_sublist].
  - intros tx bufs L next err Hnext _ Hp bufs' err' [= <- <-].
    apply getNextMessage_Some in Hnext as [Hin _]. exists next.
    split; [done|]. split; [by eapply processMessage_rejected|].
    intros m. rewrite buffered_removeMessage. case_decide; [|done].
    by intros [? _]%list_elem_of_filter.
  - intros tx bufs L next tx' r _ _ _ IH bufs' err ->.
    destruct (IH _ _ eq_refl) as (bad & Hin & Hrej & Hgone). exists bad.
    split; [|done]. eapply elem_of_sublist; [done|apply removeMessage_sublist].
Qed.

Lemma applyInOrder_total i tx msg : exists r, applyInOrder i tx msg = Some r.
Proof.
  unfold applyInOrder. destruct (processMessage tx msg) as [err|tx']; [eauto|].
  edestruct (drain_total (length (buffered (messageBuffers i) (Channel (metadata msg)))))
    as [[bufs [err|txEnd]] ->]; [done|eauto..].
Qed.

(** [UpdateRocketState] returns on every inventory and message. *)
Lemma UpdateRocketState_total i msg : exists r, UpdateRocketState i msg = Some r.
Proof.
  unfold UpdateRocketState. destruct (_ <=? _); [eauto|].
  destruct (_ >? _); [eauto|]. apply applyInOrder_total.
Qed.

(** An error comes from the in-order arm only. *)
Lemma UpdateRocketState_error i msg i' err :
  UpdateRocketState i msg = Some (i', Some err) ->
  applyInOrder i (db i) msg = Some (i', Some err).
Proof.
  unfold UpdateRocketState. destruct (_ <=? _); [done|]. by destruct (_ >? _).
Qed.

(** C1 (amended).  When a transition fails while the buffered events are
    drained, the call's one transaction is rolled back: the table, and with
    it the watermark, is as it was before the call, the event that arrived
    in order included.  The failing event came out of the reorder buffer and
    is not put back, and nothing else is added to the buffer. *)
Theorem drain_failure_rolls_back i msg tx' i' err :
  processMessage (db i) msg = inr tx' ->
  UpdateRocketState i msg = Some (i', Some err) ->
  db i' = db i /\
  watermark i' (Channel (metadata msg)) = watermark i (Channel (metadata msg)) /\
  exists bad,
    bad ∈ buffered (messageBuffers i) (Channel (metadata msg)) /\
    Rejected bad err /\
    (forall m, m ∈ buffered (messageBuffers i') (Channel (metadata msg)) ->
               number m ≠ number bad) /\
    buffered (messageBuffers i') (Channel (metadata msg))
      `sublist_of` buffered (messageBuffers i) (Channel (metadata msg)).
Proof.
  intros Hp Hu. apply UpdateRocketState_error in Hu. unfold applyInOrder in Hu.
  rewrite Hp in Hu.
  destruct (drain _ _ _ _ _) as [[bufs [err'|txEnd]]|] eqn:Hd; [|done..].
  injection Hu as <- <-. simpl. split; [done|]. split; [done|].
  destruct (drain_error _ _ _ _ _ _ _ Hd) as (bad & Hin & Hrej & Hgone).
  exists bad. repeat split; try done. by apply drain_buffers in Hd as [? _].
Qed.

(** ** What a transition does to the table *)

Lemma setLastMessageNumber_lookup tx c c' n :
  setLastMessageNumber tx c n !! c' =
    if decide (c = c')
    then (fun r => {| type := type r; speed := speed r; mission := mission r;
                      status := status r; last_message_number := n |}) <$> tx !! c
    else tx !! c'.
Proof. unfold setLastMessageNumber. apply lookup_alter. Qed.

Lemma setLastMessageNumber_is_Some tx c c' n :
  is_Some (setLastMessageNumber tx c n !! c') <-> is_Some (tx !! c').
Proof.
  rewrite setLastMessageNumber_lookup. case_decide; [subst|done].
  by rewrite fmap_is_Some.
Qed.

Lemma setLastMessageNumber_absent tx c n :
  tx !! c = None -> setLastMessageNumber tx c n = tx.
Proof. intros Hc. apply alter_id. intros r Hr. congruence. Qed.

Lemma readLastMessageNumber_set tx c n :
  is_Some (tx !! c) -> readLastMessageNumber (setLastMessageNumber tx c n) c = n.
Proof.
  intros [r Hr]. unfold readLastMessageNumber.
  rewrite setLastMessageNumber_lookup, decide_True, Hr by done. done.
Qed.

Lemma readLastMessageNumber_set_ne tx c c' n :
  c ≠ c' -> readLastMessageNumber (setLastMessageNumber tx c n) c' = readLastMessageNumber tx c'.
Proof.
  intros Hc. unfold readLastMessageNumber.
  by rewrite setLastMessageNumber_lookup, decide_False.
Qed.

Lemma readLastMessageNumber_absent tx c : tx !! c = None -> readLastMessageNumber tx c = 0.
Proof. intros Hc. unfold readLastMessageNumber. by rewrite Hc. Qed.

(** The five statements, by what they do to a row: [processMessage] either
    writes the whole row of the message's channel (Launched) or alters it
    where it exists. *)
Lemma processMessage_shape tx msg tx' :
  processMessage tx msg = inr tx' ->
  (exists r, last_message_number r = number msg /\
     tx' = <[Channel (metadata msg) := r]> tx) \/
  (exists f, (forall r, last_message_number (f r) = number msg) /\
     tx' = alter f (Channel (metadata msg)) tx).
Proof.
  unfold processMessage. rewrite MessageHandlers_lookup.
  repeat case_decide; simpl; try done.
  - destruct (UnmarshalLaunched _) as [|m]; [done|]. intros [= <-]. left.
    eexists. split; [|reflexivity]. done.
  - destruct (UnmarshalSpeedChanged _) as [|m]; [done|]. intros [= <-]. right.
    eexists (fun r => _). split; [|reflexivity]. done.
  - destruct (UnmarshalSpeedChanged _) as [|m]; [done|]. intros [= <-]. right.
    eexists (fun r => _). split; [|reflexivity]. done.
  - destruct (UnmarshalExploded _) as [|m]; [done|]. intros [= <-]. right.
    eexists (fun r => _). split; [|reflexivity]. done.
  - destruct (UnmarshalMissionChanged _) as [|m]; [done|]. intros [= <-]. right.
    eexists (fun r => _). split; [|reflexivity]. done.
Qed.

(** Rows of other channels are not touched. *)
Lemma processMessage_other tx msg tx' c :
  processMessage tx msg = inr tx' -> Channel (metadata msg) ≠ c -> tx' !! c = tx !! c.
Proof.
  intros [(r & _ & ->)|(f & _ & ->)]%processMessage_shape Hc.
  - by rewrite lookup_insert_ne.
  - by rewrite lookup_alter_ne.
Qed.

(** No statement deletes a row. *)
Lemma processMessage_is_Some tx msg tx' c :
  processMessage tx msg = inr tx' -> is_Some (tx !! c) -> is_Some (tx' !! c).
Proof.
  intros [(r & _ & ->)|(f & _ & ->)]%processMessage_shape Hc.
  - rewrite lookup_insert_is_Some. destruct (decide (Channel (metadata msg) = c)); auto.
  - by rewrite lookup_alter_is_Some.
Qed.

(** A row of the message's channel carries the message's number afterwards. *)
Lemma processMessage_number tx msg tx' r :
  processMessage tx msg = inr tx' -> tx' !! Channel (metadata msg) = Some r ->
  last_message_number r = number msg.
Proof.
  intros [(r' & Hr' & ->)|(f & Hf & ->)]%processMessage_shape.
  - rewrite lookup_insert_eq. by intros [= <-].
  - rewrite lookup_alter_eq. destruct (tx !! _); simpl; [|done]. by intros [= <-].
Qed.

(** A message that leaves its channel without a row did nothing, and does
    nothing to any table without that row. *)
Lemma processMessage_absent tx msg tx' tx2 :
  processMessage tx msg = inr tx' -> tx' !! Channel (metadata msg) = None ->
  tx2 !! Channel (metadata msg) = None -> processMessage tx2 msg = inr tx2.
Proof.
  unfold processMessage. rewrite MessageHandlers_lookup.
  repeat case_decide; simpl; try done.
  - destruct (UnmarshalLaunched _) as [|m]; [done|]. intros [= <-].
    unfold upsertLaunched. by rewrite lookup_insert_eq.
  - destruct (UnmarshalSpeedChanged _) as [|m]; [done|]. intros _ _ Habs.
    unfold updateSpeedIncreased. rewrite alter_id; [done|]. intros r Hr. congruence.
  - destruct (UnmarshalSpeedChanged _) as [|m]; [done|]. intros _ _ Habs.
    unfold updateSpeedDecreased. rewrite alter_id; [done|]. intros r Hr. congruence.
  - destruct (UnmarshalExploded _) as [|m]; [done|]. intros _ _ Habs.
    unfold updateExploded. rewrite alter_id; [done|]. intros r Hr. congruence.
  - destruct (UnmarshalMissionChanged _) as [|m]; [done|]. intros _ _ Habs.
    unfold updateMissionChanged. rewrite alter_id; [done|]. intros r Hr. congruence.
Qed.

(** ** Sorting the buffer *)

Lemma insertByNumber_perm msg (l : list RocketMessage) : insertByNumber msg l ≡ₚ msg :: l.
Proof.
  induction l as [|x l IH]; simpl; [done|].
  destruct (number msg <? number x); [done|]. rewrite IH. apply Permutation_swap.
Qed.

Lemma sortSlice_perm (l : list RocketMessage) : sortSlice l ≡ₚ l.
Proof.
  induction l as [|x l IH]; simpl; [done|]. by rewrite insertByNumber_perm, IH.
Qed.

Lemma alreadyBuffered_true (buf : list RocketMessage) n :
  alreadyBuffered buf n = true <-> exists m, m ∈ buf /\ number m = n.
Proof.
  unfold alreadyBuffered. rewrite existsb_exists. split.
  - intros (m & Hin%list_elem_of_In & Hn). exists m. split; [done|lia].
  - intros (m & Hin%list_elem_of_In & Hn). exists m. split; [done|lia].
Qed.

Lemma alreadyBuffered_false (buf : list RocketMessage) n :
  alreadyBuffered buf n = false <-> forall m, m ∈ buf -> number m ≠ n.
Proof.
  rewrite <-not_true_iff_false, alreadyBuffered_true. split.
  - intros Hno m Hin Hn. apply Hno. by exists m.
  - intros Hall (m & Hin & Hn). by apply (Hall m).
Qed.

(** Buffering a message a second time changes nothing. *)
Lemma bufferMessage_idemp bufs c msg :
  bufferMessage (bufferMessage bufs c msg) c msg = bufferMessage bufs c msg.
Proof.
  unfold bufferMessage.
  destruct (alreadyBuffered (buffered bufs c) (number msg)) eqn:Hb.
  - by rewrite Hb.
  - rewrite buffered_insert, decide_True by done.
    assert (alreadyBuffered (sortSlice (buffered bufs c ++ [msg])) (number msg) = true)
      as ->; [|done].
    apply alreadyBuffered_true. exists msg. split; [|done].
    rewrite sortSlice_perm. set_solver.
Qed.

(** ** Submitting an event again *)

Lemma drain_break fuel tx bufs c L :
  getNextMessage bufs c (int_add L 1) = None -> drain fuel tx bufs c L = Some (bufs, inr tx).
Proof. intros Hn. destruct fuel; simpl; by rewrite Hn. Qed.

(** No iteration deletes a row. *)
Lemma drain_is_Some fuel tx bufs c L bufs' txEnd c' :
  drain fuel tx bufs c L = Some (bufs', inr txEnd) ->
  is_Some (tx !! c') -> is_Some (txEnd !! c').
Proof.
  intros Hd.
  refine (drain_elim c
    (fun tx bufs L r => forall bufs' txEnd, r = (bufs', inr txEnd) ->
       is_Some (tx !! c') -> is_Some (txEnd !! c'))
    _ _ _ _ fuel tx bufs L _ Hd bufs' txEnd eq_refl); clear.
  - by intros tx bufs L _ bufs' txEnd [= <- <-].
  - intros tx bufs L next r _ _ IH bufs' txEnd ->. by eapply IH.
  - done.
  - intros tx bufs L next tx' r _ _ Hp IH bufs' txEnd -> Hc. eapply IH; [done|].
    apply setLastMessageNumber_is_Some. by eapply processMessage_is_Some.
Qed.

(** Where the channel has a row when the loop ends, it carries a number at
    least as large as the one the loop started from. *)
Lemma drain_watermark fuel tx bufs c L bufs' txEnd :
  drain fuel tx bufs c L = Some (bufs', inr txEnd) ->
  (is_Some (tx !! c) -> L <= readLastMessageNumber tx c) ->
  is_Some (txEnd !! c) -> L <= readLastMessageNumber txEnd c.
Proof.
  intros Hd.
  refine (drain_elim c
    (fun tx bufs L r => forall bufs' txEnd, r = (bufs', inr txEnd) ->
       (is_Some (tx !! c) -> L <= readLastMessageNumber tx c) ->
       is_Some (txEnd !! c) -> L <= readLastMessageNumber txEnd c)
    _ _ _ _ fuel tx bufs L _ Hd bufs' txEnd eq_refl); clear.
  - intros tx bufs L _ bufs' txEnd [= <- <-]. auto.
  - intros tx bufs L next r _ _ IH bufs' txEnd ->. by eapply IH.
  - done.
  - intros tx bufs L next tx' r _ Hlt Hp IH bufs' txEnd -> _ Hend.
    etrans; [|eapply IH; [done| |done]]; [lia|].
    intros Hc%setLastMessageNumber_is_Some. by rewrite readLastMessageNumber_set.
Qed.

Lemma UpdateRocketState_again i msg i1 :
  UpdateRocketState i msg = Some (i1, None) -> UpdateRocketState i1 msg = Some (i1, None).
Proof.
  unfold UpdateRocketState at 1.
  set (c := Channel (metadata msg)).
  destruct (Z.leb_spec (number msg) (readLastMessageNumber (db i) c)) as [Hle|Hgt].
  { intros [= <-]. by apply UpdateRocketState_duplicate. }
  destruct (number msg >? int_add (readLastMessageNumber (db i) c) 1) eqn:Hgap.
  { intros [= <-]. unfold UpdateRocketState. simpl. fold c.
    destruct (Z.leb_spec (number msg) (readLastMessageNumber (db i) c)); [lia|].
    by rewrite Hgap, bufferMessage_idemp. }
  unfold applyInOrder. fold c.
  destruct (processMessage (db i) msg) as [|tx'] eqn:Hp; [done|].
  destruct (drain _ _ _ _ _) as [[bufs [err|txEnd]]|] eqn:Hd; [done| |done].
  intros [= <-].
  destruct (txEnd !! c) as [r|] eqn:Hrow.
  - apply UpdateRocketState_duplicate. unfold watermark. simpl. fold c.
    eapply drain_watermark; [done| |by rewrite Hrow].
    intros Hc%setLastMessageNumber_is_Some. by rewrite readLastMessageNumber_set.
  - assert (tx' !! c = None) as Hrow'.
    { apply eq_None_not_Some. intros Hc. apply (setLastMessageNumber_is_Some _ c c (number msg)) in Hc.
      eapply drain_is_Some in Hc; [|done]. rewrite Hrow in Hc. by destruct Hc. }
    assert (db i !! c = None) as Hrow0.
    { apply eq_None_not_Some. intros Hc. eapply processMessage_is_Some in Hc; [|done].
      rewrite Hrow' in Hc. by destruct Hc. }
    unfold UpdateRocketState. simpl. fold c.
    rewrite (readLastMessageNumber_absent _ _ Hrow0) in Hgt, Hgap.
    rewrite (readLastMessageNumber_absent _ _ Hrow).
    destruct (Z.leb_spec (number msg) 0); [lia|]. rewrite Hgap.
    unfold applyInOrder. simpl. fold c.
    rewrite (processMessage_absent _ _ _ txEnd Hp Hrow' Hrow).
    rewrite (setLastMessageNumber_absent _ _ _ Hrow).
    rewrite drain_break; [done|]. by eapply drain_next_gone.
Qed.

(** C4 (amended).  An event at or below the watermark is discarded: the
    call returns success and leaves the inventory as it is.  Hence an event
    whose submission returned success can be submitted again: the second
    call returns success too and changes nothing, neither the table nor the
    buffers. *)
Theorem update_idempotent :
  (forall i msg,
     number msg <= watermark i (Channel (metadata msg)) ->
     UpdateRocketState i msg = Some (i, None)) /\
  (forall i msg i1,
     UpdateRocketState i msg = Some (i1, None) ->
     exists i2, UpdateRocketState i1 msg = Some (i2, None) /\
       db i2 = db i1 /\
       watermark i2 (Channel (metadata msg)) = watermark i1 (Channel (metadata msg)) /\
       messageBuffers i2 = messageBuffers i1).
Proof.
  split; [apply UpdateRocketState_duplicate|].
  intros i msg i1 Hu. exists i1. by rewrite (UpdateRocketState_again _ _ _ Hu).
Qed.

(** ** The scenarios of the test suite, on any decoder *)

Lemma int_add_small l : -1000 <= l <= 1000 -> int_add l 1 = l + 1.
Proof. intros Hl. apply wrap_id. unfold int_ok, MinInt, MaxInt. lia. Qed.

(** Reduce the projections of an inventory and the comparisons of numerals,
    and nothing else. *)
Local Ltac norm :=
  cbn [db messageBuffers Z.leb Z.gtb Z.compare Pos.compare Pos.compare_cont Z.add Pos.add
       Pos.succ length app].

Lemma removeMessage_singleton bufs c m :
  buffered (removeMessage (<[c := [m]]> bufs) c (number m)) c = [].
Proof.
  rewrite buffered_removeMessage, decide_True by done.
  rewrite buffered_insert, decide_True by done.
  rewrite filter_cons_False by naive_solver. done.
Qed.

(** C7.  On a key without row and without buffered events:
    SpeedIncreased(3, by 200) is buffered and returns success, Launched(1,
    speed 500) applies, SpeedIncreased(2, by 300) applies and drains the
    buffered event; the row ends with speed 1000 and watermark 3. *)
Theorem out_of_order_scenario i c (p3 p1 p2 : RawMessage) (t3 t1 t2 : string)
    (l : RocketLaunchedMessage) :
  db i !! c = None ->
  buffered (messageBuffers i) c = [] ->
  UnmarshalSpeedChanged p3 = inr {| By := 200 |} ->
  UnmarshalLaunched p1 = inr l -> LaunchSpeed l = 500 ->
  UnmarshalSpeedChanged p2 = inr {| By := 300 |} ->
  let m3 := {| metadata := {| Channel := c; MessageNumber := 3; MessageTime := t3;
                              MessageType := "RocketSpeedIncreased" |};
               message := p3 |} in
  let m1 := {| metadata := {| Channel := c; MessageNumber := 1; MessageTime := t1;
                              MessageType := "RocketLaunched" |};
               message := p1 |} in
  let m2 := {| metadata := {| Channel := c; MessageNumber := 2; MessageTime := t2;
                              MessageType := "RocketSpeedIncreased" |};
               message := p2 |} in
  exists i1 i2 i3 r,
    UpdateRocketState i m3 = Some (i1, None) /\
    db i1 = db i /\
    buffered (messageBuffers i1) c = [m3] /\
    UpdateRocketState i1 m1 = Some (i2, None) /\
    UpdateRocketState i2 m2 = Some (i3, None) /\
    db i3 !! c = Some r /\
    speed r = Some 1000 /\
    last_message_number r = 3 /\
    watermark i3 c = 3 /\
    buffered (messageBuffers i3) c = [].
Proof.
  intros Hrow Hbuf Hp3 Hp1 Hl Hp2 m3 m1 m2.
  assert (Channel (metadata m3) = c /\ number m3 = 3 /\
          MessageType (metadata m3) = "RocketSpeedIncreased"%string /\ message m3 = p3)
    as (Hc3 & Hn3 & Hk3 & Hm3) by done.
  assert (Channel (metadata m1) = c /\ number m1 = 1 /\
          MessageType (metadata m1) = "RocketLaunched"%string /\ message m1 = p1)
    as (Hc1 & Hn1 & Hk1 & Hm1) by done.
  assert (Channel (metadata m2) = c /\ number m2 = 2 /\
          MessageType (metadata m2) = "RocketSpeedIncreased"%string /\ message m2 = p2)
    as (Hc2 & Hn2 & Hk2 & Hm2) by done.
  clearbody m3 m1 m2. rewrite <-Hm3 in Hp3. rewrite <-Hm1 in Hp1. rewrite <-Hm2 in Hp2.
  clear Hm1 Hm2 Hm3.
  set (i1 := {| db := db i; messageBuffers := <[c := [m3]]> (messageBuffers i) |}).
  assert (UpdateRocketState i m3 = Some (i1, None)) as H1.
  { unfold UpdateRocketState. cbv zeta. rewrite Hc3, Hn3.
    rewrite (readLastMessageNumber_absent _ _ Hrow), int_add_small by lia. norm.
    unfold bufferMessage. by rewrite Hbuf. }
  set (tx1 := setLastMessageNumber (upsertLaunched (db i) c l 1) c 1).
  set (i2 := {| db := tx1; messageBuffers := messageBuffers i1 |}).
  assert (UpdateRocketState i1 m1 = Some (i2, None)) as H2.
  { unfold UpdateRocketState. cbv zeta. rewrite Hc1, Hn1. unfold i2, i1. norm.
    rewrite (readLastMessageNumber_absent _ _ Hrow), int_add_small by lia. norm.
    unfold applyInOrder. cbv zeta. rewrite (processMessage_launched _ m1 l) by done.
    rewrite Hc1, Hn1. norm. fold tx1.
    rewrite drain_break; [done|]. apply getNextMessage_None.
    intros m. rewrite buffered_insert, decide_True by done.
    intros ->%list_elem_of_singleton. rewrite Hn3, int_add_small; lia. }
  assert (readLastMessageNumber tx1 c = 1) as Hw1.
  { apply readLastMessageNumber_set. unfold upsertLaunched. by rewrite lookup_insert_eq. }
  set (tx2 := setLastMessageNumber (updateSpeedIncreased tx1 c 300 2) c 2).
  set (tx3 := setLastMessageNumber (updateSpeedIncreased tx2 c 200 3) c 3).
  set (i3 := {| db := tx3; messageBuffers := removeMessage (messageBuffers i1) c 3 |}).
  assert (buffered (messageBuffers i3) c = []) as Hb3.
  { unfold i3, i1. norm. rewrite <-Hn3. apply removeMessage_singleton. }
  assert (UpdateRocketState i2 m2 = Some (i3, None)) as H3.
  { unfold UpdateRocketState. cbv zeta. rewrite Hc2, Hn2. unfold i3, i2, i1. norm.
    rewrite Hw1, int_add_small by lia.
    norm. unfold applyInOrder. cbv zeta.
    rewrite (processMessage_increased _ m2 {| By := 300 |}) by done.
    rewrite Hc2, Hn2. norm. fold tx2.
    rewrite buffered_insert, decide_True by done. norm.
    assert (getNextMessage (<[c := [m3]]> (messageBuffers i)) c (int_add 2 1) = Some m3)
      as Hnext.
    { unfold getNextMessage. rewrite buffered_insert, decide_True by done.
      rewrite int_add_small by lia. cbn [List.find]. by rewrite Hn3. }
    cbn [drain]. rewrite Hnext, Hn3. norm.
    rewrite (processMessage_increased _ m3 {| By := 200 |}) by done.
    rewrite Hc3, Hn3. cbn [By]. fold tx3.
    norm.
    assert (getNextMessage (removeMessage (<[c := [m3]]> (messageBuffers i)) c 3) c
              (int_add 3 1) = None) as ->; [|done].
    apply getNextMessage_None. intros m. unfold i3, i1 in Hb3. cbn [messageBuffers] in Hb3.
    rewrite Hb3.
    by intros ?%not_elem_of_nil. }
  assert (tx3 !! c = Some {| type := Some (Type_ l); speed := Some 1000;
                             mission := Some (Mission l); status := Some "launched"%string;
                             last_message_number := 3 |}) as Hr.
  { unfold tx3, tx2, tx1, updateSpeedIncreased, upsertLaunched.
    rewrite !setLastMessageNumber_lookup, !decide_True by done.
    rewrite !lookup_alter_eq, !setLastMessageNumber_lookup, !decide_True by done.
    rewrite !lookup_alter_eq, !setLastMessageNumber_lookup, !decide_True by done.
    rewrite lookup_insert_eq. simpl. by rewrite Hl. }
  exists i1, i2, i3. eexists. split; [exact H1|]. split; [done|].
  split; [unfold i1; norm; by rewrite buffered_insert, decide_True|].
  split; [exact H2|]. split; [exact H3|]. split; [exact Hr|].
  split; [done|]. split; [done|].
  split; [|done]. unfold watermark, readLastMessageNumber, i3. norm. by rewrite Hr.
Qed.

(** An UPDATE on a channel without a row matches nothing. *)
Lemma processMessage_no_row tx msg :
  Valid msg -> MessageType (metadata msg) ≠ "RocketLaunched"%string ->
  tx !! Channel (metadata msg) = None -> processMessage tx msg = inr tx.
Proof.
  intros [m Hk Hm|m Hk Hm|m Hk Hm|m Hk Hm|m Hk Hm] Hnl Hrow; [done|..].
  - rewrite (processMessage_increased _ _ m) by done.
    unfold updateSpeedIncreased. rewrite alter_id; [done|]. intros r Hr. congruence.
  - rewrite (processMessage_decreased _ _ m) by done.
    unfold updateSpeedDecreased. rewrite alter_id; [done|]. intros r Hr. congruence.
  - rewrite (processMessage_exploded _ _ m) by done.
    unfold updateExploded. rewrite alter_id; [done|]. intros r Hr. congruence.
  - rewrite (processMessage_mission _ _ m) by done.
    unfold updateMissionChanged. rewrite alter_id; [done|]. intros r Hr. congruence.
Qed.

(** C10 (amended).  On a key without a row and with no event numbered 2 in
    its buffer, an event numbered 1 of a kind other than Launched whose
    payload decodes returns success, creates no row and leaves the
    watermark at 0: its UPDATEs match no row.  A later event numbered 1 on
    that key is therefore not a duplicate; it takes the in-order arm. *)
Theorem update_without_row_is_lost i msg :
  db i !! Channel (metadata msg) = None ->
  number msg = 1 ->
  Valid msg ->
  MessageType (metadata msg) ≠ "RocketLaunched"%string ->
  getNextMessage (messageBuffers i) (Channel (metadata msg)) 2 = None ->
  exists i',
    UpdateRocketState i msg = Some (i', None) /\
    db i' !! Channel (metadata msg) = None /\
    watermark i' (Channel (metadata msg)) = 0 /\
    forall later,
      Channel (metadata later) = Channel (metadata msg) -> number later = 1 ->
      ~ number later <= watermark i' (Channel (metadata later)) /\
      UpdateRocketState i' later = applyInOrder i' (db i') later.
Proof.
  intros Hrow Hn Hvalid Hkind Hnext.
  assert (watermark i (Channel (metadata msg)) = 0) as Hw.
  { by apply readLastMessageNumber_absent. }
  assert (int_ok 1) as Hok by (unfold int_ok, MinInt, MaxInt; lia).
  exists i. split; [|split; [done|split; [done|]]].
  - rewrite UpdateRocketState_in_order by (rewrite ?Hn, ?Hw; done).
    unfold applyInOrder. rewrite processMessage_no_row by done.
    rewrite setLastMessageNumber_absent by done.
    rewrite drain_break; [by destruct i|].
    by rewrite Hn, int_add_small by lia.
  - intros later Hc Hl. rewrite Hc, Hw, Hl. split; [lia|].
    apply UpdateRocketState_in_order; rewrite ?Hl, ?Hc, ?Hw; done.
Qed.

(** ** The invariant of the reorder buffers *)

Lemma ascending_sublist (l k : list RocketMessage) :
  l `sublist_of` k -> ascending k -> ascending l.
Proof.
  unfold ascending. induction 1 as [|x l k Hsub IH|x l k Hsub IH]; intros Hk.
  - done.
  - apply StronglySorted_cons in Hk as [Hx Hk]. apply StronglySorted_cons. split; [|auto].
    rewrite Forall_forall in *. intros y Hy. apply Hx. by eapply elem_of_sublist.
  - apply StronglySorted_cons in Hk as [_ Hk]. auto.
Qed.

Lemma ascending_NoDup (l : list RocketMessage) : ascending l -> NoDup (number <$> l).
Proof.
  unfold ascending. induction 1 as [|x l Hl IH Hx]; csimpl; constructor; [|done].
  rewrite list_elem_of_fmap. intros (y & Hxy & Hy).
  rewrite Forall_forall in Hx. specialize (Hx y Hy). lia.
Qed.

Lemma insertByNumber_ascending msg (l : list RocketMessage) :
  ascending l -> (forall x, x ∈ l -> number x ≠ number msg) ->
  ascending (insertByNumber msg l).
Proof.
  unfold ascending. induction 1 as [|x l Hl IH Hx]; intros Hne; simpl.
  - repeat constructor.
  - rewrite Forall_forall in Hx.
    destruct (Z.ltb_spec (number msg) (number x)) as [Hlt|Hge].
    + apply StronglySorted_cons. split.
      * apply Forall_cons. split; [done|]. apply Forall_forall. intros y Hy.
        specialize (Hx y Hy). lia.
      * apply StronglySorted_cons. by rewrite Forall_forall.
    + apply StronglySorted_cons. split.
      * apply Forall_forall. intros y. rewrite insertByNumber_perm.
        intros [->|Hy]%elem_of_cons; [|auto].
        pose proof (Hne x ltac:(left)). lia.
      * apply IH. intros y Hy. apply Hne. by right.
Qed.

(** Appending a message with a new number to an ascending buffer and
    sorting gives an ascending buffer. *)
Lemma sortSlice_ascending (l : list RocketMessage) msg :
  ascending l -> (forall x, x ∈ l -> number x ≠ number msg) ->
  ascending (sortSlice (l ++ [msg])).
Proof.
  unfold ascending. induction 1 as [|x l Hl IH Hx]; intros Hne; simpl.
  - repeat constructor.
  - apply insertByNumber_ascending.
    + apply IH. intros y Hy. apply Hne. by right.
    + intros y. rewrite sortSlice_perm. rewrite Forall_forall in Hx.
      intros [Hy| ->%list_elem_of_singleton]%elem_of_app.
      * specialize (Hx y Hy). lia.
      * pose proof (Hne x ltac:(left)). lia.
Qed.

Lemma buffer_ok_sublist c w w' (l k : list RocketMessage) :
  l `sublist_of` k -> w' <= w -> buffer_ok c w k -> buffer_ok c w' l.
Proof.
  intros Hsub Hw [Hasc Hk]. split; [by eapply ascending_sublist|].
  intros m Hm. destruct (Hk m) as (? & ? & ?); [by eapply elem_of_sublist|].
  split; [done|]. split; [done|lia].
Qed.

Lemma db_ok_readLastMessageNumber d c : db_ok d -> int_ok (readLastMessageNumber d c).
Proof.
  intros Hd. unfold readLastMessageNumber. destruct (d !! c) eqn:E; [by eapply Hd|].
  unfold int_ok, MinInt, MaxInt. lia.
Qed.

Lemma db_ok_setLastMessageNumber d c n :
  db_ok d -> int_ok n -> db_ok (setLastMessageNumber d c n).
Proof.
  intros Hd Hn c' r. rewrite setLastMessageNumber_lookup. case_decide; [|apply Hd].
  destruct (d !! c); simpl; [|done]. by intros [= <-].
Qed.

Lemma db_ok_processMessage d msg d' :
  db_ok d -> int_ok (number msg) -> processMessage d msg = inr d' -> db_ok d'.
Proof.
  intros Hd Hn [(r & Hr & ->)|(f & Hf & ->)]%processMessage_shape c r'.
  - rewrite lookup_insert. case_decide; [|apply Hd]. intros [= <-]. by rewrite Hr.
  - rewrite lookup_alter. case_decide; [|apply Hd].
    destruct (d !! _); simpl; [|done]. intros [= <-]. by rewrite Hf.
Qed.

(** The arithmetic of the two comparisons on [int]. *)
Lemma gap_beyond w n : int_ok n -> w < n -> n > int_add w 1 -> w + 1 < n.
Proof.
  intros Hn Hw. unfold int_add. destruct (decide (MinInt <= w + 1)) as [Hlo|Hlo].
  - rewrite wrap_id; [lia|]. unfold int_ok in *. lia.
  - unfold int_ok in *. lia.
Qed.

Lemma in_order_number w n : int_ok n -> int_ok w -> w < n -> ~ n > int_add w 1 -> n = w + 1.
Proof.
  intros Hn Hw Hlt. unfold int_add. rewrite wrap_id; [lia|]. unfold int_ok in *. lia.
Qed.

Lemma next_number L n : int_ok L -> int_ok n -> L < n -> n = int_add L 1 -> n = L + 1.
Proof.
  intros HL Hn Hlt ->. unfold int_add. apply wrap_id. unfold int_ok in *. lia.
Qed.

(** One transition on the channel's row and the watermark write after it:
    the number read back does not go down, and ends at most at [n]. *)
Lemma step_watermark tx msg tx' c w :
  Channel (metadata msg) = c -> processMessage tx msg = inr tx' ->
  readLastMessageNumber tx c <= w -> w <= number msg ->
  let tx'' := setLastMessageNumber tx' c (number msg) in
  readLastMessageNumber tx c <= readLastMessageNumber tx'' c /\
  readLastMessageNumber tx'' c <= number msg /\
  forall c', c ≠ c' -> tx'' !! c' = tx !! c'.
Proof.
  intros Hc Hp Hw Hn tx''. split; [|split].
  - destruct (tx' !! c) as [r|] eqn:Hrow.
    + unfold tx''. rewrite readLastMessageNumber_set by (by rewrite Hrow). lia.
    + unfold tx''. rewrite setLastMessageNumber_absent by done.
      rewrite (readLastMessageNumber_absent tx') by done.
      destruct (tx !! c) as [r|] eqn:Hrow0.
      * eapply processMessage_is_Some in Hp; [|by rewrite Hrow0].
        rewrite Hrow in Hp. by destruct Hp.
      * by rewrite readLastMessageNumber_absent.
  - destruct (tx' !! c) as [r|] eqn:Hrow.
    + unfold tx''. by rewrite readLastMessageNumber_set by (by rewrite Hrow).
    + unfold tx''. rewrite setLastMessageNumber_absent by done.
      rewrite (readLastMessageNumber_absent tx') by done.
      destruct (tx !! c) as [r|] eqn:Hrow0.
      * eapply processMessage_is_Some in Hp; [|by rewrite Hrow0].
        rewrite Hrow in Hp. by destruct Hp.
      * rewrite readLastMessageNumber_absent in Hw by done. lia.
  - intros c' Hc'. unfold tx''. rewrite setLastMessageNumber_lookup, decide_False by done.
    eapply processMessage_other; [done|]. by rewrite Hc.
Qed.

(** The loop under the invariant: from a buffer beyond [L] and a table
    whose number for the channel is at most [L], a [break] leaves a table
    that agrees with the old one on the other channels, whose number for
    the channel did not go down, and a buffer beyond that number + 1. *)
Lemma drain_invariant c fuel tx bufs L bufs' txEnd :
  drain fuel tx bufs c L = Some (bufs', inr txEnd) ->
  buffer_ok c (L - 1) (buffered bufs c) -> db_ok tx -> int_ok L ->
  readLastMessageNumber tx c <= L ->
  db_ok txEnd /\
  (forall c', c ≠ c' -> txEnd !! c' = tx !! c') /\
  readLastMessageNumber tx c <= readLastMessageNumber txEnd c /\
  forall m, m ∈ buffered bufs' c -> readLastMessageNumber txEnd c + 1 < number m.
Proof.
  intros Hd.
  refine (drain_elim c
    (fun tx bufs L r => forall bufs' txEnd, r = (bufs', inr txEnd) ->
       buffer_ok c (L - 1) (buffered bufs c) -> db_ok tx -> int_ok L ->
       readLastMessageNumber tx c <= L ->
       db_ok txEnd /\
       (forall c', c ≠ c' -> txEnd !! c' = tx !! c') /\
       readLastMessageNumber tx c <= readLastMessageNumber txEnd c /\
       forall m, m ∈ buffered bufs' c -> readLastMessageNumber txEnd c + 1 < number m)
    _ _ _ _ fuel tx bufs L _ Hd bufs' txEnd eq_refl); clear.
  - intros tx bufs L Hnone bufs' txEnd [= <- <-] [_ Hbuf] Hdb HL Hw.
    split; [done|]. split; [done|]. split; [lia|].
    intros m Hm. destruct (Hbuf m Hm) as (_ & Hm_ok & Hgt).
    pose proof (proj1 (getNextMessage_None _ _ _) Hnone m Hm) as Hne.
    destruct (decide (number m = L + 1)) as [Heq|]; [|lia].
    exfalso. apply Hne. rewrite Heq. symmetry. apply wrap_id.
    unfold int_ok in *. lia.
  - intros tx bufs L next r Hnext Hle _ bufs' txEnd _ [_ Hbuf] _ _ _.
    apply getNextMessage_Some in Hnext as [Hin _].
    destruct (Hbuf next Hin) as (_ & _ & ?). lia.
  - done.
  - intros tx bufs L next tx' r Hnext Hlt Hp IH bufs' txEnd -> Hbuf Hdb HL Hw.
    apply getNextMessage_Some in Hnext as [Hin Hnum].
    destruct Hbuf as [Hasc Hbuf].
    destruct (Hbuf next Hin) as (Hc & Hok & _).
    assert (number next = L + 1) as Hnext_eq by (by apply next_number).
    destruct (step_watermark tx next tx' c L Hc Hp Hw ltac:(lia)) as (Hup & Hle & Hother).
    destruct (IH _ _ eq_refl) as (Hdb' & Hother' & Hup' & Hbuf'); try done.
    + split.
      * eapply ascending_sublist; [apply removeMessage_sublist|done].
      * intros m. rewrite buffered_removeMessage, decide_True by done.
        intros [Hne Hm]%list_elem_of_filter. destruct (Hbuf m Hm) as (? & ? & ?).
        split; [done|]. split; [done|]. lia.
    + apply db_ok_setLastMessageNumber; [|done]. by eapply db_ok_processMessage.
    + split; [done|]. split; [|split; [lia|done]].
      intros c' Hc'. by rewrite Hother', Hother.
Qed.

(** [UpdateRocketState] keeps the invariant and lowers no watermark. *)
Lemma UpdateRocketState_invariant i msg i' r :
  invariant i -> int_ok (number msg) -> UpdateRocketState i msg = Some (i', r) ->
  invariant i' /\ forall c, watermark i c <= watermark i' c.
Proof.
  intros [Hdb Hbufs] Hn. unfold UpdateRocketState.
  set (ch := Channel (metadata msg)).
  pose proof (db_ok_readLastMessageNumber _ ch Hdb) as Hw_ok.
  destruct (Z.leb_spec (number msg) (readLastMessageNumber (db i) ch)) as [Hle|Hgt].
  { intros [= <- <-]. split; [by split|done]. }
  destruct (Z.gtb_spec (number msg) (int_add (readLastMessageNumber (db i) ch) 1))
    as [Hgap|Hnogap].
  { intros [= <- <-]. split; [|done]. split; [done|]. intros c. unfold watermark. simpl.
    unfold bufferMessage.
    destruct (alreadyBuffered _ _) eqn:Hb; [apply Hbufs|].
    rewrite buffered_insert. case_decide as Hc; [subst c|apply Hbufs].
    destruct (Hbufs ch) as [Hasc Hall]. split.
    - apply sortSlice_ascending; [done|]. by apply alreadyBuffered_false.
    - intros m. rewrite sortSlice_perm.
      intros [Hm| ->%list_elem_of_singleton]%elem_of_app; [by apply Hall|].
      split; [done|]. split; [done|]. apply gap_beyond; [done|done|lia]. }
  assert (number msg = readLastMessageNumber (db i) ch + 1) as Hnum.
  { apply in_order_number; [done..|lia]. }
  unfold applyInOrder. fold ch.
  destruct (processMessage (db i) msg) as [err|tx'] eqn:Hp.
  { intros [= <- <-]. split; [by split|done]. }
  destruct (step_watermark (db i) msg tx' ch (readLastMessageNumber (db i) ch)
              eq_refl Hp ltac:(lia) ltac:(lia)) as (Hup & Hle & Hother).
  destruct (drain _ _ _ _ _) as [[bufs [err|txEnd]]|] eqn:Hd; [| |done].
  - (* The drain failed: the table is the old one, the buffers shrank. *)
    intros [= <- <-]. split; [|done]. split; [done|]. intros c.
    unfold watermark. simpl. apply drain_buffers in Hd as [Hsub Hrest].
    destruct (decide (ch = c)) as [<-|Hc].
    + eapply buffer_ok_sublist; [done| |apply Hbufs]. done.
    + unfold buffered. rewrite Hrest by done. apply Hbufs.
  - intros [= <- <-].
    pose proof (drain_buffers _ _ _ _ _ _ _ Hd) as [Hsub Hrest].
    destruct (Hbufs ch) as [Hasc Hall].
    apply drain_invariant in Hd as (Hdb' & Hother' & Hup' & Hbuf'); try done.
    + split; [split; [done|]|].
      * intros c. unfold watermark. simpl. destruct (decide (ch = c)) as [<-|Hc].
        -- split; [by eapply ascending_sublist|]. intros m Hm.
           destruct (Hall m) as (? & ? & ?); [by eapply elem_of_sublist|]. auto.
        -- unfold buffered. rewrite Hrest by done.
           unfold readLastMessageNumber. rewrite Hother', Hother by done. apply Hbufs.
      * intros c. unfold watermark. simpl. destruct (decide (ch = c)) as [<-|Hc]; [lia|].
        unfold readLastMessageNumber. by rewrite Hother', Hother.
    + split; [done|]. intros m Hm. destruct (Hall m Hm) as (? & ? & ?).
      unfold watermark in *. split; [done|]. split; [done|]. lia.
    + apply db_ok_setLastMessageNumber; [|done]. by eapply db_ok_processMessage.
Qed.

Lemma Reachable_invariant i : Reachable i -> invariant i.
Proof.
  induction 1 as [d Hd|i msg i' r _ IH Hn Hu].
  - split; [done|]. intros c. unfold buffered. simpl. rewrite lookup_empty. simpl.
    split; [constructor|]. by intros m ?%not_elem_of_nil.
  - by eapply UpdateRocketState_invariant.
Qed.

(** C8.  Without a row the watermark of a key is 0; and every call of
    [UpdateRocketState] returns, whatever it returns, with no key's
    watermark below what it was. *)
Theorem watermark_monotone :
  (forall i c, db i !! c = None -> watermark i c = 0) /\
  (forall i msg,
     Reachable i -> int_ok (number msg) ->
     exists i' r, UpdateRocketState i msg = Some (i', r) /\
       forall c, watermark i c <= watermark i' c).
Proof.
  split.
  - intros i c Hrow. by apply readLastMessageNumber_absent.
  - intros i msg Hi Hn. destruct (UpdateRocketState_total i msg) as [[i' r] Hu].
    exists i', r. split; [done|].
    eapply UpdateRocketState_invariant; [by apply Reachable_invariant|done..].
Qed.

(** C9.  Between calls, every channel's reorder buffer is sorted by
    strictly ascending message number, so holds at most one message per
    number, and every buffered number is beyond watermark + 1. *)
Theorem reorder_buffer_invariant i c :
  Reachable i ->
  ascending (buffered (messageBuffers i) c) /\
  NoDup (number <$> buffered (messageBuffers i) c) /\
  Forall (fun m => watermark i c + 1 < number m) (buffered (messageBuffers i) c).
Proof.
  intros [_ Hbufs]%Reachable_invariant. destruct (Hbufs c) as [Hasc Hall].
  split; [done|]. split; [by apply ascending_NoDup|].
  apply Forall_forall. intros m Hm. by apply Hall.
Qed.

(** ** Sequences of calls *)

Lemma UpdateAll_total i (msgs : list RocketMessage) : exists r, UpdateAll i msgs = Some r.
Proof.
  revert i. induction msgs as [|msg msgs IH]; intros i; simpl; [eauto|].
  destruct (UpdateRocketState_total i msg) as [[i' r] ->].
  destruct (IH i') as [[i'' rs] ->]. eauto.
Qed.

Lemma UpdateAll_reachable i (msgs : list RocketMessage) i' rs :
  Reachable i -> Forall (fun m => int_ok (number m)) msgs ->
  UpdateAll i msgs = Some (i', rs) -> Reachable i'.
Proof.
  revert i rs. induction msgs as [|msg msgs IH]; intros i rs Hi Hok; simpl.
  - by intros [= <- <-].
  - apply Forall_cons in Hok as [Hmsg Hok].
    destruct (UpdateRocketState i msg) as [[i1 r]|] eqn:Hu; [|done].
    destruct (UpdateAll i1 msgs) as [[i2 rs']|] eqn:Ha; [|done].
    intros [= <- <-]. eapply IH; [|done..]. by eapply reachable_update.
Qed.

(** ** Order independence *)

Lemma applyAll_app tx c (l1 l2 : list RocketMessage) :
  applyAll tx c (l1 ++ l2) =
    match applyAll tx c l1 with
    | inl err => inl err
    | inr tx' => applyAll tx' c l2
    end.
Proof.
  revert tx. induction l1 as [|e l1 IH]; intros tx; simpl; [done|].
  destruct (processMessage tx e); [done|]. apply IH.
Qed.

(** A run of events numbered [a], [a + 1], ... is ascending. *)
Lemma numbered_ascending (l : list RocketMessage) a :
  number <$> l = seqZ a (Z.of_nat (length l)) -> ascending l.
Proof.
  unfold ascending. revert a. induction l as [|x l IH]; intros a Hnum; [constructor|].
  rewrite seqZ_cons in Hnum by (simpl; lia). csimpl in Hnum.
  injection Hnum as Hx Hl.
  replace (Z.pred (Z.of_nat (S (length l)))) with (Z.of_nat (length l)) in Hl by lia.
  apply StronglySorted_cons. split; [|by eapply IH].
  apply Forall_forall. intros y Hy.
  assert (number y ∈ seqZ (Z.succ a) (Z.of_nat (length l))) as Hin.
  { rewrite <-Hl. apply list_elem_of_fmap. by exists y. }
  apply elem_of_seqZ in Hin. lia.
Qed.

Section Run.
(** The events of one key [c], numbered 1 .. N, all valid, submitted to an
    inventory [i0] where the key has watermark 0 and an empty buffer, and
    where the first transition finds or creates the key's row. *)
Context (i0 : Inventory) (c : string) (es : list RocketMessage).
Context (Hnumbers : number <$> es = seqZ 1 (Z.of_nat (length es))).
Context (Hvalid : Forall Valid es).
Context (Hchannel : Forall (fun e => Channel (metadata e) = c) es).
Context (Hmax : Z.of_nat (length es) <= MaxInt).
Context (Hbuffer0 : buffered (messageBuffers i0) c = []).
Context (Hwatermark0 : watermark i0 c = 0).
Context (Hrow : is_Some (db i0 !! c) \/
                exists e, head es = Some e /\
                  MessageType (metadata e) = "RocketLaunched"%string).

Lemma run_lookup_number (j : nat) e : es !! j = Some e -> number e = Z.of_nat j + 1.
Proof.
  intros He. assert ((number <$> es) !! j = Some (number e)) as Hj.
  { by rewrite list_lookup_fmap, He. }
  rewrite Hnumbers in Hj. apply lookup_seqZ in Hj. lia.
Qed.

Lemma run_elem_number e : e ∈ es -> 1 <= number e <= Z.of_nat (length es).
Proof.
  intros [j Hj]%list_elem_of_lookup. pose proof (lookup_lt_Some _ _ _ Hj).
  rewrite (run_lookup_number _ _ Hj). lia.
Qed.

Lemma run_lookup n :
  1 <= n <= Z.of_nat (length es) ->
  exists e, es !! Z.to_nat (n - 1) = Some e /\ number e = n.
Proof.
  intros Hn. destruct (lookup_lt_is_Some_2 es (Z.to_nat (n - 1))) as [e He]; [lia|].
  exists e. split; [done|]. rewrite (run_lookup_number _ _ He). lia.
Qed.

Lemma run_number_inj e e' : e ∈ es -> e' ∈ es -> number e = number e' -> e = e'.
Proof.
  intros [j Hj]%list_elem_of_lookup [j' Hj']%list_elem_of_lookup Heq.
  rewrite (run_lookup_number _ _ Hj), (run_lookup_number _ _ Hj') in Heq.
  assert (j = j') as -> by lia. congruence.
Qed.

Lemma run_ascending : ascending es.
Proof. by eapply numbered_ascending. Qed.

Lemma run_valid e : e ∈ es -> Valid e /\ Channel (metadata e) = c.
Proof.
  intros He. rewrite Forall_forall in Hvalid. rewrite Forall_forall in Hchannel. auto.
Qed.

Lemma applied_S (k : nat) tx e tx' :
  applyAll (db i0) c (take k es) = inr tx -> es !! k = Some e ->
  processMessage tx e = inr tx' ->
  applyAll (db i0) c (take (S k) es) = inr (setLastMessageNumber tx' c (number e)).
Proof.
  intros Hk He Hp. rewrite (take_S_r _ _ _ He), applyAll_app, Hk.
  simpl. by rewrite Hp.
Qed.

(** The first event finds or creates the row, so after [k] events the
    watermark is [k]. *)
Lemma applied_watermark (k : nat) tx :
  (k <= length es)%nat -> applyAll (db i0) c (take k es) = inr tx ->
  readLastMessageNumber tx c = Z.of_nat k /\ ((0 < k)%nat -> is_Some (tx !! c)).
Proof.
  revert tx. induction k as [|k IH]; intros tx Hlen.
  - simpl. intros [= <-]. split; [done|lia].
  - destruct (lookup_lt_is_Some_2 es k) as [e He]; [lia|].
    rewrite (take_S_r _ _ _ He), applyAll_app.
    destruct (applyAll (db i0) c (take k es)) as [|txk] eqn:Hk; [done|].
    simpl. destruct (processMessage txk e) as [|tx'] eqn:Hp; [done|].
    intros [= <-]. destruct (IH _ ltac:(lia) eq_refl) as [Hw Hsome].
    assert (is_Some (tx' !! c)) as Hrow'.
    { destruct k as [|k].
      - simpl in Hk. injection Hk as <-. destruct Hrow as [Hr|(e0 & Hhead & Hkind)].
        + by eapply processMessage_is_Some.
        + assert (e0 = e) as -> by (destruct es; simplify_eq/=; done).
          destruct (run_valid e) as [Hv Hc]; [by eapply list_elem_of_lookup_2|].
          destruct Hv as [m ? Hm|m Hk' ?|m Hk' ?|m Hk' ?|m Hk' ?]; try congruence.
          rewrite (processMessage_launched _ _ m) in Hp by done.
          injection Hp as <-. unfold upsertLaunched. rewrite Hc, lookup_insert_eq. eauto.
      - eapply processMessage_is_Some; [done|]. apply Hsome. lia. }
    split; [|by intros _; apply setLastMessageNumber_is_Some].
    rewrite readLastMessageNumber_set by done. rewrite (run_lookup_number _ _ He). lia.
Qed.

Lemma held_elem (seen : gset Z) k m :
  m ∈ held es seen k <-> m ∈ es /\ number m ∈ seen /\ k < number m.
Proof. unfold held. rewrite list_elem_of_filter. tauto. Qed.

Lemma held_ascending (seen : gset Z) k : ascending (held es seen k).
Proof. eapply ascending_sublist; [apply sublist_filter|apply run_ascending]. Qed.

Lemma held_NoDup (seen : gset Z) k : NoDup (held es seen k).
Proof. eapply NoDup_fmap_1, ascending_NoDup, held_ascending. Qed.

(** Buffering a new event: append and sort. *)
Lemma held_insert (seen : gset Z) k e :
  e ∈ es -> number e ∉ seen -> k < number e ->
  sortSlice (held es seen k ++ [e]) = held es (seen ∪ {[number e]}) k.
Proof.
  intros He HS Hk.
  assert (forall x, x ∈ held es seen k -> number x ≠ number e) as Hnew.
  { intros x [_ [Hx _]]%held_elem Heq. by rewrite Heq in Hx. }
  eapply (StronglySorted_unique_strong (fun a b => number a < number b)).
  - intros x y _ _ ??. lia.
  - by apply sortSlice_ascending; [apply held_ascending|].
  - apply held_ascending.
  - rewrite sortSlice_perm. apply NoDup_Permutation.
    + apply NoDup_app. split; [apply held_NoDup|]. split; [|apply NoDup_singleton].
      intros x Hx ->%list_elem_of_singleton. by eapply Hnew.
    + apply held_NoDup.
    + intros x. rewrite elem_of_app, list_elem_of_singleton, !held_elem, elem_of_union,
        elem_of_singleton. split.
      * intros [(? & ? & ?)| ->]; auto.
      * intros (Hx & [Hxs|Hxe] & Hxk); [auto|]. right. by apply run_number_inj.
Qed.

(** Taking the event numbered [k + 1] out of the buffer. *)
Lemma held_remove (seen : gset Z) k :
  filter (fun m => number m ≠ k + 1) (held es seen k) = held es seen (k + 1).
Proof.
  unfold held. rewrite list_filter_filter. apply list_filter_iff. intros m. split.
  - intros (? & ? & ?). split; [done|lia].
  - intros [? ?]. split; [lia|]. split; [done|lia].
Qed.

Lemma held_next (seen : gset Z) k :
  (k + 1) ∉ seen -> held es (seen ∪ {[k + 1]}) (k + 1) = held es seen k.
Proof.
  intros HS. unfold held. apply list_filter_iff. intros m.
  rewrite elem_of_union, elem_of_singleton. split.
  - intros [[?|?] ?]; [split; [done|lia]|lia].
  - intros [Hm ?]. split; [by left|].
    destruct (decide (number m = k + 1)) as [Heq|]; [|lia]. by rewrite Heq in Hm.
Qed.

Lemma int_add_next L : 0 <= L <= MaxInt -> int_add L 1 = L + 1 \/ int_add L 1 < 1.
Proof.
  intros HL. destruct (decide (L = MaxInt)) as [->|].
  - right. vm_compute. done.
  - left. apply wrap_id. unfold int_ok, MinInt, MaxInt in *. lia.
Qed.

Lemma run_next_held (seen : gset Z) (L : nat) :
  (forall n, n ∈ seen -> 1 <= n <= Z.of_nat (length es)) -> Z.of_nat L + 1 ∈ seen ->
  exists e, es !! L = Some e /\ number e = Z.of_nat L + 1 /\ e ∈ held es seen (Z.of_nat L).
Proof.
  intros HS Hin. destruct (run_lookup _ (HS _ Hin)) as (e & Hlook & He).
  replace (Z.to_nat (Z.of_nat L + 1 - 1)) with L in Hlook by lia.
  exists e. split; [done|]. split; [done|]. apply held_elem. rewrite He.
  split; [by eapply list_elem_of_lookup_2|]. split; [done|lia].
Qed.

Lemma run_next_missing (seen : gset Z) (L : nat) bufs :
  (L <= length es)%nat ->
  (forall n, n ∈ seen -> 1 <= n <= Z.of_nat (length es)) -> (Z.of_nat L + 1) ∉ seen ->
  buffered bufs c = held es seen (Z.of_nat L) ->
  getNextMessage bufs c (int_add (Z.of_nat L) 1) = None.
Proof.
  intros HL HS Hout Hbuf. apply getNextMessage_None. intros m. rewrite Hbuf.
  intros (_ & HmS & Hm)%held_elem Heq. pose proof (HS _ HmS) as Hrange.
  destruct (int_add_next (Z.of_nat L) ltac:(lia)) as [Hn|Hn]; [|lia].
  apply Hout. by rewrite <-Hn, <-Heq.
Qed.

(** The drain after event [L]: it applies the waiting events [L + 1],
    [L + 2], ... in order, up to the first number that has not come. *)
Lemma run_drain (seen : gset Z) fuel (L : nat) tx bufs :
  (L <= length es)%nat ->
  (forall n, n ∈ seen -> 1 <= n <= Z.of_nat (length es)) ->
  applyAll (db i0) c (take L es) = inr tx ->
  buffered bufs c = held es seen (Z.of_nat L) ->
  (length (held es seen (Z.of_nat L)) <= fuel)%nat ->
  exists (k : nat) bufs' txEnd,
    drain fuel tx bufs c (Z.of_nat L) = Some (bufs', inr txEnd) /\
    (L <= k <= length es)%nat /\
    (forall n, Z.of_nat L < n <= Z.of_nat k -> n ∈ seen) /\
    ((Z.of_nat k + 1) ∉ seen) /\
    applyAll (db i0) c (take k es) = inr txEnd /\
    buffered bufs' c = held es seen (Z.of_nat k) /\
    (forall c', c ≠ c' -> bufs' !! c' = bufs !! c').
Proof.
  intros HL HS. revert L tx bufs HL.
  induction fuel as [|fuel IH]; intros L tx bufs HL Htx Hbuf Hfuel;
    (destruct (decide (Z.of_nat L + 1 ∈ seen)) as [Hin|Hout];
     [|exists L, bufs, tx; rewrite drain_break by (by eapply run_next_missing);
       repeat split; try done; lia]).
  - destruct (run_next_held seen L HS Hin) as (e & _ & _ & Hheld).
    destruct (held es seen (Z.of_nat L)); [by apply not_elem_of_nil in Hheld|simpl in *; lia].
  - destruct (run_next_held seen L HS Hin) as (e & Hlook & He & Hheld).
    assert (e ∈ es) as Hes by (by eapply list_elem_of_lookup_2).
    pose proof (HS _ Hin) as Hrange.
    assert (int_add (Z.of_nat L) 1 = Z.of_nat L + 1) as Hadd.
    { apply wrap_id. unfold int_ok, MinInt in *. lia. }
    assert (getNextMessage bufs c (int_add (Z.of_nat L) 1) = Some e) as Hnext.
    { unfold getNextMessage. rewrite Hbuf, Hadd.
      destruct (List.find _ _) as [m|] eqn:Hfind.
      - apply find_number_Some in Hfind as [[Hm _]%held_elem Hnum].
        f_equal. apply run_number_inj; [done..|lia].
      - exfalso. eapply find_number_None; [done..]. }
    destruct (run_valid e Hes) as [Hv Hc].
    destruct (processMessage_valid tx e Hv) as [tx' Hp].
    assert (number e = Z.of_nat (S L)) as HeS by lia.
    destruct (IH (S L) (setLastMessageNumber tx' c (number e))
                (removeMessage bufs c (number e)))
      as (k & bufs' & txEnd & Hd & Hk & Hall & Hnot & Happ & Hbufs' & Hother).
    + lia.
    + by apply (applied_S L tx).
    + rewrite buffered_removeMessage, decide_True, Hbuf, He, held_remove by done.
      f_equal. lia.
    + assert (Nat.lt (length (filter (fun m => number m ≠ Z.of_nat L + 1)
                                 (held es seen (Z.of_nat L))))
                     (length (held es seen (Z.of_nat L)))) as Hshort.
      { apply (length_filter_lt _ _ e); [done|]. intros Hne. by apply Hne. }
      rewrite held_remove in Hshort.
      replace (Z.of_nat (S L)) with (Z.of_nat L + 1) by lia. lia.
    + rewrite <-HeS in Hd. exists k, bufs', txEnd. simpl. rewrite Hnext.
      destruct (Z.leb_spec (number e) (Z.of_nat L)); [lia|]. rewrite Hp.
      split; [done|]. split; [lia|]. split.
      { intros n Hn. destruct (decide (n = Z.of_nat L + 1)) as [->|]; [done|].
        apply Hall. lia. }
      split; [done|]. split; [done|]. split; [done|].
      intros c' Hc'. rewrite Hother by done. by apply removeMessage_other.
Qed.

(** One more event of the run, whichever it is. *)
Lemma run_step (seen : gset Z) (k : nat) i e :
  RunState i0 c es seen k i -> e ∈ es -> number e ∉ seen ->
  exists (k' : nat) i',
    UpdateRocketState i e = Some (i', None) /\
    RunState i0 c es (seen ∪ {[number e]}) k' i'.
Proof.
  intros (Hk & HS & Hlow & Hnext & Happ & Hbuf) He Hnew.
  destruct (applied_watermark k (db i) Hk Happ) as [Hw _].
  destruct (run_valid e He) as [Hv Hc].
  pose proof (run_elem_number e He) as Hrange.
  assert (Z.of_nat k < number e) as Hgt.
  { destruct (decide (Z.of_nat k < number e)); [done|]. exfalso. apply Hnew, Hlow. lia. }
  assert (forall n, n ∈ seen ∪ {[number e]} -> 1 <= n <= Z.of_nat (length es)) as HS'.
  { intros n [?| ->%elem_of_singleton]%elem_of_union; auto. }
  assert (int_add (Z.of_nat k) 1 = Z.of_nat k + 1) as Hadd.
  { apply wrap_id. unfold int_ok, MinInt in *. lia. }
  unfold UpdateRocketState. rewrite Hc, Hw, Hadd.
  destruct (Z.leb_spec (number e) (Z.of_nat k)); [lia|].
  destruct (Z.gtb_spec (number e) (Z.of_nat k + 1)) as [Hgap|Hin_order].
  - eexists k, _. split; [done|].
    split; [done|]. split; [done|].
    split; [intros n Hn; apply elem_of_union_l, Hlow; lia|].
    split; [intros [?|?%elem_of_singleton]%elem_of_union; [done|lia]|].
    split; [done|]. simpl. unfold bufferMessage.
    assert (alreadyBuffered (buffered (messageBuffers i) c) (number e) = false) as ->.
    { apply alreadyBuffered_false. intros m. rewrite Hbuf.
      intros (_ & Hm & _)%held_elem Heq. by rewrite Heq in Hm. }
    rewrite buffered_insert, decide_True, Hbuf by done. by apply held_insert.
  - assert (number e = Z.of_nat (S k)) as HeS by lia.
    assert (es !! k = Some e) as Hlook.
    { destruct (run_lookup (number e) Hrange) as (e' & Hlook & He').
      replace (Z.to_nat (number e - 1)) with k in Hlook by lia.
      rewrite Hlook. f_equal. apply run_number_inj; [|done..].
      by eapply list_elem_of_lookup_2. }
    destruct (processMessage_valid (db i) e Hv) as [tx' Hp].
    unfold applyInOrder. rewrite Hc, Hp.
    destruct (run_drain (seen ∪ {[number e]})
                (length (buffered (messageBuffers i) c)) (S k)
                (setLastMessageNumber tx' c (number e)) (messageBuffers i))
      as (k' & bufs' & txEnd & Hd & Hk' & Hall & Hnot & Happ' & Hbufs' & _).
    + apply lookup_lt_Some in Hlook. lia.
    + done.
    + by apply (applied_S k (db i)).
    + rewrite Hbuf, HeS. replace (Z.of_nat (S k)) with (Z.of_nat k + 1) by lia.
      symmetry. by apply held_next.
    + rewrite Hbuf, HeS. replace (Z.of_nat (S k)) with (Z.of_nat k + 1) by lia.
      by rewrite held_next.
    + rewrite <-HeS in Hd. rewrite Hd. eexists k', _. split; [done|].
      split; [lia|]. split; [done|]. split.
      { intros n Hn. destruct (decide (n <= Z.of_nat k)); [apply elem_of_union_l, Hlow; lia|].
        destruct (decide (n = number e)) as [->|].
        - by apply elem_of_union_r, elem_of_singleton.
        - apply Hall. lia. }
      split; [done|]. split; done.
Qed.

(** The events [ps] of the run, submitted one after the other. *)
Lemma run_all (ps : list RocketMessage) (seen : gset Z) (k : nat) i :
  RunState i0 c es seen k i ->
  NoDup (number <$> ps) ->
  (forall e, e ∈ ps -> e ∈ es /\ number e ∉ seen) ->
  exists (k' : nat) i',
    UpdateAll i ps = Some (i', replicate (length ps) None) /\
    RunState i0 c es (seen ∪ list_to_set (number <$> ps)) k' i'.
Proof.
  revert seen k i. induction ps as [|e ps IH]; intros seen k i Hstate Hnodup Hps.
  - exists k, i. split; [done|]. simpl. by rewrite (right_id_L ∅ (∪)).
  - csimpl in Hnodup. apply NoDup_cons in Hnodup as [Hfresh Hnodup].
    destruct (Hps e ltac:(left)) as [He Hnew].
    destruct (run_step seen k i e Hstate He Hnew) as (k1 & i1 & Hu & Hstate1).
    destruct (IH (seen ∪ {[number e]}) k1 i1 Hstate1 Hnodup) as (k2 & i2 & Ha & Hstate2).
    { intros e' He'. destruct (Hps e' ltac:(by right)) as [? ?]. split; [done|].
      intros [?|Heq%elem_of_singleton]%elem_of_union; [done|].
      apply Hfresh, list_elem_of_fmap. by exists e'. }
    exists k2, i2. simpl. rewrite Hu, Ha. split; [done|].
    csimpl. by rewrite (assoc_L (∪)).
Qed.

(** After the whole run, in whatever order: all events applied in order. *)
Lemma run_permutation (ps : list RocketMessage) :
  ps ≡ₚ es ->
  exists i',
    UpdateAll i0 ps = Some (i', replicate (length es) None) /\
    applyAll (db i0) c es = inr (db i') /\
    watermark i' c = Z.of_nat (length es) /\
    buffered (messageBuffers i') c = [].
Proof.
  intros Hperm.
  assert (RunState i0 c es ∅ 0 i0) as Hstate0.
  { split; [lia|]. split; [intros n Hn; by apply not_elem_of_empty in Hn|].
    split; [intros n ?; lia|]. split; [apply not_elem_of_empty|].
    split; [done|]. rewrite Hbuffer0. unfold held. symmetry.
    apply elem_of_nil_inv. intros m [[Hm _] _]%list_elem_of_filter.
    by apply not_elem_of_empty in Hm. }
  destruct (run_all ps ∅ 0%nat i0 Hstate0) as (k & i' & Ha & Hstate).
  { rewrite Hperm, Hnumbers. apply NoDup_seqZ. }
  { intros e He. rewrite Hperm in He. split; [done|apply not_elem_of_empty]. }
  destruct Hstate as (Hk & HS & Hlow & Hnext & Happ & Hbuf).
  assert (k = length es) as ->.
  { destruct (decide (k = length es)); [done|]. exfalso. apply Hnext.
    apply elem_of_union_r, elem_of_list_to_set. rewrite Hperm, Hnumbers.
    apply elem_of_seqZ. lia. }
  rewrite firstn_all in Happ. rewrite (Permutation_length Hperm) in Ha. exists i'.
  split; [done|]. split; [done|]. split.
  - eapply applied_watermark; [done|]. by rewrite firstn_all.
  - rewrite Hbuf. unfold held. apply elem_of_nil_inv.
    intros m [[_ Hm] Hin]%list_elem_of_filter. pose proof (run_elem_number m Hin). lia.
Qed.

End Run.

(** X1.  Order independence.  Let the events [es] of one key be valid and
    numbered 1 .. N, and let the key have watermark 0, an empty buffer, and
    a row or a Launched as event 1.  Submitted one call per event in any
    order [ps], the events leave the table that the in-order submission
    leaves: every call returns success, all N transitions are applied in
    ascending order, the watermark is N and the buffer is empty. *)
Theorem order_independence i c (es ps : list RocketMessage) :
  number <$> es = seqZ 1 (Z.of_nat (length es)) ->
  Forall Valid es ->
  Forall (fun e => Channel (metadata e) = c) es ->
  Z.of_nat (length es) <= MaxInt ->
  buffered (messageBuffers i) c = [] ->
  watermark i c = 0 ->
  (is_Some (db i !! c) \/
   exists e, head es = Some e /\ MessageType (metadata e) = "RocketLaunched"%string) ->
  ps ≡ₚ es ->
  exists iP iE,
    UpdateAll i ps = Some (iP, replicate (length es) None) /\
    UpdateAll i es = Some (iE, replicate (length es) None) /\
    db iP = db iE /\
    applyAll (db i) c es = inr (db iE) /\
    watermark iP c = Z.of_nat (length es) /\
    watermark iE c = Z.of_nat (length es) /\
    buffered (messageBuffers iP) c = [] /\
    buffered (messageBuffers iE) c = [].
Proof.
  intros Hnum Hvalid Hchan Hmax Hbuf Hw Hrow Hperm.
  destruct (run_permutation i c es Hnum Hvalid Hchan Hmax Hbuf Hw Hrow ps Hperm)
    as (iP & HP & HappP & HwP & HbP).
  destruct (run_permutation i c es Hnum Hvalid Hchan Hmax Hbuf Hw Hrow es ltac:(done))
    as (iE & HE & HappE & HwE & HbE).
  exists iP, iE. repeat split; try done. congruence.
Qed.

(** ** Further properties of the inventory *)

(** An error return runs the rollback: the table is the old one. *)
Lemma UpdateRocketState_error_db i msg i' err :
  UpdateRocketState i msg = Some (i', Some err) -> db i' = db i.
Proof.
  intros Hu%UpdateRocketState_error. unfold applyInOrder in Hu.
  destruct (processMessage (db i) msg); [by injection Hu as <- <-|].
  destruct (drain _ _ _ _ _) as [[bufs [err'|txEnd]]|]; [|done..].
  by injection Hu as <- <-.
Qed.

(** On a store that works the call is [UpdateRocketState]. *)
Lemma drainOn_working st k fuel tx bufs c L :
  (forall n, st n = None) ->
  prod_map id (sum_map id fst) <$> drainOn st k fuel tx bufs c L = drain fuel tx bufs c L.
Proof.
  intros Hst. revert k tx bufs L. induction fuel as [|fuel IH]; intros k tx bufs L; simpl;
    destruct (getNextMessage bufs c (int_add L 1)) as [next|]; try done.
  destruct (number next <=? L); [apply IH|].
  unfold processMessageOn, exec. rewrite !Hst.
  destruct (processMessage tx next); [done|apply IH].
Qed.

Lemma drainOn_total st k fuel tx bufs c L :
  (length (buffered bufs c) <= fuel)%nat -> exists r, drainOn st k fuel tx bufs c L = Some r.
Proof.
  revert k tx bufs L. induction fuel as [|fuel IH]; intros k tx bufs L Hlen; simpl;
    destruct (getNextMessage bufs c (int_add L 1)) as [next|] eqn:Hnext; eauto.
  - apply getNextMessage_Some in Hnext as [Hin _].
    destruct (buffered bufs c); [by apply not_elem_of_nil in Hin|simpl in Hlen; lia].
  - apply getNextMessage_Some in Hnext as [Hin _].
    pose proof (removeMessage_shorter _ _ _ Hin).
    destruct (number next <=? L); [apply IH; lia|].
    destruct (processMessageOn st k tx next); [eauto|].
    destruct (exec st (S k) _); [eauto|apply IH; lia].
Qed.

Lemma exec_error st k tx err : exec st k tx = inl err -> st k = Some err.
Proof. unfold exec. destruct (st k); [by intros [= ->]|done]. Qed.

Lemma processMessageOn_error st k tx msg err :
  processMessageOn st k tx msg = inl err -> st k = Some err \/ Rejected msg err.
Proof.
  unfold processMessageOn. destruct (processMessage tx msg) as [err'|tx'] eqn:Hp.
  - intros [= ->]. right. by eapply processMessage_rejected.
  - intros Hx%exec_error. by left.
Qed.

(** The loop on a failing store: it only removes messages, from the
    channel's buffer, and its error is the store's or the registry's
    refusal of a message it took out of the buffer. *)
Lemma drainOn_spec st k fuel tx bufs c L bufs' res :
  drainOn st k fuel tx bufs c L = Some (bufs', res) ->
  buffered bufs' c `sublist_of` buffered bufs c /\
  (forall c', c ≠ c' -> bufs' !! c' = bufs !! c') /\
  forall err, res = inl err ->
    (exists n, st n = Some err) \/ exists bad, bad ∈ buffered bufs c /\ Rejected bad err.
Proof.
  revert k tx bufs L. induction fuel as [|fuel IH]; intros k tx bufs L; simpl;
    destruct (getNextMessage bufs c (int_add L 1)) as [next|] eqn:Hnext;
    try done; try by intros [= <- <-].
  apply getNextMessage_Some in Hnext as [Hin _].
  assert (forall tx0 k0 L0,
    drainOn st k0 fuel tx0 (removeMessage bufs c (number next)) c L0 = Some (bufs', res) ->
    buffered bufs' c `sublist_of` buffered bufs c /\
    (forall c', c ≠ c' -> bufs' !! c' = bufs !! c') /\
    forall err, res = inl err ->
      (exists n, st n = Some err) \/ exists bad, bad ∈ buffered bufs c /\ Rejected bad err)
    as Hrec.
  { intros tx0 k0 L0 (Hsub & Hother & Herr)%IH. split; [|split].
    - etrans; [done|]. apply removeMessage_sublist.
    - intros c' Hc'. rewrite Hother by done. by apply removeMessage_other.
    - intros err Hres. destruct (Herr err Hres) as [?|(bad & Hbad & ?)]; [by left|].
      right. exists bad. split; [|done].
      eapply elem_of_sublist; [done|apply removeMessage_sublist]. }
  assert (forall err,
    Some (removeMessage bufs c (number next), @inl error (Rockets * nat) err)
      = Some (bufs', res) ->
    (exists n, st n = Some err) \/ Rejected next err ->
    buffered bufs' c `sublist_of` buffered bufs c /\
    (forall c', c ≠ c' -> bufs' !! c' = bufs !! c') /\
    forall err, res = inl err ->
      (exists n, st n = Some err) \/ exists bad, bad ∈ buffered bufs c /\ Rejected bad err)
    as Hstop.
  { intros err [= <- <-] Hwhy. split; [apply removeMessage_sublist|]. split.
    - intros c' Hc'. by apply removeMessage_other.
    - intros err' [= <-]. destruct Hwhy as [?|?]; [by left|]. right. by exists next. }
  destruct (number next <=? L); [apply Hrec|].
  destruct (processMessageOn st k tx next) as [err|tx'] eqn:Hp.
  { intros Hd. apply (Hstop err Hd).
    apply processMessageOn_error in Hp as [?|?]; [left; by eexists|by right]. }
  destruct (exec st (S k) _) as [err|tx''] eqn:Hx; [|apply Hrec].
  intros Hd. apply (Hstop err Hd). left. eexists. by eapply exec_error.
Qed.

(** X2.  [UpdateRocketState] on a store that may fail at any statement.
    The call always ends; on a store that does not fail it is the
    [UpdateRocketState] of the other properties.  When it returns an
    error, the table is as it was before the call (the deferred rollback),
    the error is the store's or the registry's refusal of the submitted
    message or of a message that waited in the channel's buffer, and the
    buffers have lost messages at most, of the channel only.  An error of
    [Commit] is the store's; the buffers of the other channels are then as
    they were. *)
Theorem error_rolls_back (st : Store) i msg :
  let c := Channel (metadata msg) in
  (exists o, UpdateRocketStateOn st i msg = Some o) /\
  ((forall n, st n = None) ->
   UpdateRocketStateOn st i msg
     = (fun r : Inventory * option error => Returned r.1 r.2) <$> UpdateRocketState i msg) /\
  (forall i' err,
     UpdateRocketStateOn st i msg = Some (Returned i' (Some err)) ->
     db i' = db i /\
     ((exists n, st n = Some err) \/ Rejected msg err \/
      exists bad, bad ∈ buffered (messageBuffers i) c /\ Rejected bad err) /\
     buffered (messageBuffers i') c `sublist_of` buffered (messageBuffers i) c /\
     forall c', c ≠ c' -> messageBuffers i' !! c' = messageBuffers i !! c') /\
  (forall bufs err,
     UpdateRocketStateOn st i msg = Some (CommitFailed bufs err) ->
     (exists n, st n = Some err) /\
     forall c', c ≠ c' -> bufs !! c' = messageBuffers i !! c').
Proof.
  intros c. split; [|split; [|split]].
  - unfold UpdateRocketStateOn. destruct (st 0%nat); [eauto|]. destruct (st 1%nat); [eauto|].
    destruct (_ <=? _); [eauto|]. destruct (_ >? _); [eauto|].
    destruct (processMessageOn _ _ _ _); [eauto|]. destruct (exec _ _ _) as [|tx'']; [eauto|].
    edestruct (drainOn_total st 4 (length (buffered (messageBuffers i) c)) tx''
                 (messageBuffers i) c (number msg)) as [[bufs [err|[txEnd k]]] Hd]; [done|..];
      fold c; rewrite Hd; eauto.
  - intros Hst. unfold UpdateRocketStateOn, UpdateRocketState, applyInOrder, commit.
    unfold processMessageOn, exec. rewrite !Hst.
    destruct (_ <=? _); [done|]. destruct (_ >? _); [done|].
    destruct (processMessage (db i) msg) as [err|tx']; [done|]. fold c.
    rewrite <-(drainOn_working st 4) by done.
    destruct (drainOn _ _ _ _ _ _ _) as [[bufs [err|[txEnd k]]]|]; simpl; [done| |done].
    by rewrite Hst.
  - intros i' err. unfold UpdateRocketStateOn. fold c.
    destruct (st 0%nat) as [e0|] eqn:H0.
    { intros [= <- <-]. split; [done|]. split; [left; by eexists|done]. }
    destruct (st 1%nat) as [e1|] eqn:H1.
    { intros [= <- <-]. split; [done|]. split; [left; by eexists|done]. }
    unfold commit.
    destruct (_ <=? _); [by destruct (st 2%nat)|].
    destruct (_ >? _); [by destruct (st 2%nat)|].
    destruct (processMessageOn st 2 (db i) msg) as [e2|tx'] eqn:Hp.
    { intros [= <- <-]. split; [done|]. split; [|done].
      apply processMessageOn_error in Hp as [?|?]; [left; by eexists|right; by left]. }
    destruct (exec st 3 _) as [e3|tx''] eqn:Hx.
    { intros [= <- <-]. split; [done|]. split; [|done]. left. eexists. by eapply exec_error. }
    destruct (drainOn _ _ _ _ _ _ _) as [[bufs [e|[txEnd k]]]|] eqn:Hd; [| |done].
    + intros [= <- <-]. simpl. apply drainOn_spec in Hd as (Hsub & Hother & Herr).
      split; [done|]. split; [|done].
      destruct (Herr _ eq_refl) as [?|?]; [by left|right; by right].
    + by destruct (st k).
  - intros bufs err. unfold UpdateRocketStateOn. fold c.
    destruct (st 0%nat) as [e0|] eqn:H0; [done|]. destruct (st 1%nat) as [e1|] eqn:H1; [done|].
    unfold commit.
    destruct (_ <=? _).
    { destruct (st 2%nat) eqn:H2; [|done]. intros [= <- <-]. split; [by eexists|done]. }
    destruct (_ >? _).
    { destruct (st 2%nat) eqn:H2; [|done]. intros [= <- <-]. split; [by eexists|].
      intros c' Hc'. unfold bufferMessage. destruct (alreadyBuffered _ _); [done|].
      by rewrite lookup_insert_ne. }
    destruct (processMessageOn st 2 (db i) msg) as [e2|tx']; [done|].
    destruct (exec st 3 _) as [e3|tx'']; [done|].
    destruct (drainOn _ _ _ _ _ _ _) as [[bufs0 [e|[txEnd k]]]|] eqn:Hd; [done| |done].
    destruct (st k) eqn:Hk; [|done]. intros [= <- <-]. split; [by eexists|].
    by apply drainOn_spec in Hd as (_ & Hother & _).
Qed.

(** The loop writes no row of another channel, as long as the channel's
    buffer holds messages of the channel only. *)
Lemma drain_other_rows c fuel tx bufs L bufs' txEnd c' :
  drain fuel tx bufs c L = Some (bufs', inr txEnd) ->
  (forall m, m ∈ buffered bufs c -> Channel (metadata m) = c) ->
  c ≠ c' -> txEnd !! c' = tx !! c'.
Proof.
  intros Hd.
  refine (drain_elim c
    (fun tx bufs L r => forall bufs' txEnd, r = (bufs', inr txEnd) ->
       (forall m, m ∈ buffered bufs c -> Channel (metadata m) = c) ->
       c ≠ c' -> txEnd !! c' = tx !! c')
    _ _ _ _ fuel tx bufs L _ Hd bufs' txEnd eq_refl); clear.
  - by intros tx bufs L _ bufs' txEnd [= <- <-].
  - intros tx bufs L next r _ _ IH bufs' txEnd -> Hch Hc'. eapply IH; [done| |done].
    intros m Hm. apply Hch. eapply elem_of_sublist; [done|apply removeMessage_sublist].
  - done.
  - intros tx bufs L next tx' r Hnext _ Hp IH bufs' txEnd -> Hch Hc'.
    apply getNextMessage_Some in Hnext as [Hin _].
    rewrite (IH _ _ eq_refl); [| |done].
    + rewrite setLastMessageNumber_lookup, decide_False by done.
      eapply processMessage_other; [done|]. by rewrite (Hch next Hin).
    + intros m Hm. apply Hch. eapply elem_of_sublist; [done|apply removeMessage_sublist].
Qed.

(** X3.  No cross-key interference: in a reachable inventory, a call for
    one channel changes neither the row nor the buffer of another. *)
Theorem other_channels_untouched i msg i' r c' :
  Reachable i -> UpdateRocketState i msg = Some (i', r) ->
  Channel (metadata msg) ≠ c' ->
  db i' !! c' = db i !! c' /\
  watermark i' c' = watermark i c' /\
  buffered (messageBuffers i') c' = buffered (messageBuffers i) c'.
Proof.
  intros [_ Hbufs]%Reachable_invariant Hu Hc'.
  assert (db i' !! c' = db i !! c' /\
          buffered (messageBuffers i') c' = buffered (messageBuffers i) c') as [Hrow Hbuf].
  { revert Hu. unfold UpdateRocketState. destruct (_ <=? _); [by intros [= <- <-]|].
    destruct (_ >? _).
    { intros [= <- <-]. simpl. split; [done|]. unfold bufferMessage.
      destruct (alreadyBuffered _ _); [done|]. by rewrite buffered_insert, decide_False. }
    unfold applyInOrder. destruct (processMessage (db i) msg) as [|tx'] eqn:Hp.
    { by intros [= <- <-]. }
    destruct (drain _ _ _ _ _) as [[bufs [err|txEnd]]|] eqn:Hd; [| |done].
    - intros [= <- <-]. simpl. split; [done|].
      apply drain_buffers in Hd as [_ Hrest]. unfold buffered. by rewrite Hrest.
    - intros [= <- <-]. simpl. split.
      + rewrite (drain_other_rows _ _ _ _ _ _ _ c' Hd); [| |done].
        * rewrite setLastMessageNumber_lookup, decide_False by done.
          by eapply processMessage_other.
        * intros m Hm. by apply (Hbufs (Channel (metadata msg))).
      + apply drain_buffers in Hd as [_ Hrest]. unfold buffered. by rewrite Hrest. }
  split; [done|]. split; [|done]. unfold watermark, readLastMessageNumber. by rewrite Hrow.
Qed.

(** X4.  An event beyond watermark + 1 is held: the call returns success
    and leaves the table as it is.  If the buffer held no event of that
    number, it now holds this one besides the others; if it did, the buffer
    is unchanged, whatever the new event carries. *)
Theorem gap_event_is_held i msg :
  Reachable i -> int_ok (number msg) ->
  watermark i (Channel (metadata msg)) + 1 < number msg ->
  exists i',
    UpdateRocketState i msg = Some (i', None) /\
    db i' = db i /\
    (exists m, m ∈ buffered (messageBuffers i') (Channel (metadata msg)) /\
               number m = number msg) /\
    ((forall m, m ∈ buffered (messageBuffers i) (Channel (metadata msg)) ->
                number m ≠ number msg) ->
     buffered (messageBuffers i') (Channel (metadata msg))
       ≡ₚ msg :: buffered (messageBuffers i) (Channel (metadata msg))) /\
    ((exists m, m ∈ buffered (messageBuffers i) (Channel (metadata msg)) /\
                number m = number msg) ->
     messageBuffers i' = messageBuffers i).
Proof.
  intros [Hdb _]%Reachable_invariant Hok Hgap. unfold watermark in Hgap.
  pose proof (db_ok_readLastMessageNumber _ (Channel (metadata msg)) Hdb) as Hw.
  unfold UpdateRocketState.
  destruct (Z.leb_spec (number msg) (readLastMessageNumber (db i) (Channel (metadata msg))));
    [lia|].
  assert (int_add (readLastMessageNumber (db i) (Channel (metadata msg))) 1
          = readLastMessageNumber (db i) (Channel (metadata msg)) + 1) as ->.
  { apply wrap_id. unfold int_ok in *. lia. }
  destruct (Z.gtb_spec (number msg)
              (readLastMessageNumber (db i) (Channel (metadata msg)) + 1)); [|lia].
  eexists. split; [done|]. simpl. split; [done|]. unfold bufferMessage.
  destruct (alreadyBuffered _ _) eqn:Hb.
  - apply alreadyBuffered_true in Hb. split; [done|]. split; [|done].
    intros Hnone. destruct Hb as (m & Hm & Hn). by destruct (Hnone m Hm).
  - rewrite buffered_insert, decide_True by done. split; [|split].
    + exists msg. split; [|done].
      rewrite sortSlice_perm, elem_of_app, list_elem_of_singleton. by right.
    + intros _. rewrite sortSlice_perm. by rewrite Permutation_app_comm.
    + intros (m & Hm & Hn). by destruct (proj1 (alreadyBuffered_false _ _) Hb m Hm).
Qed.

(** X5.  Every call returns.  The drain loop takes a message out of the
    channel's buffer in each iteration that does not end it, so it is over
    within as many iterations as the buffer holds messages, and more fuel
    does not change its result. *)
Theorem update_returns :
  (forall i msg, exists i' r, UpdateRocketState i msg = Some (i', r)) /\
  (forall fuel fuel' tx bufs c L,
     (length (buffered bufs c) <= fuel)%nat -> (fuel <= fuel')%nat ->
     exists r, drain fuel tx bufs c L = Some r /\ drain fuel' tx bufs c L = Some r).
Proof.
  split.
  - intros i msg. destruct (UpdateRocketState_total i msg) as [[i' r] Hu]. eauto.
  - induction fuel as [|fuel IH]; intros fuel' tx bufs c L Hlen Hfuel.
    + destruct (getNextMessage bufs c (int_add L 1)) as [next|] eqn:Hnext.
      * apply getNextMessage_Some in Hnext as [Hin _].
        destruct (buffered bufs c); [by apply not_elem_of_nil in Hin|simpl in Hlen; lia].
      * eexists. by rewrite !drain_break.
    + destruct fuel' as [|fuel']; [lia|]. simpl.
      destruct (getNextMessage bufs c (int_add L 1)) as [next|] eqn:Hnext; [|eauto].
      apply getNextMessage_Some in Hnext as [Hin _].
      pose proof (removeMessage_shorter _ _ _ Hin).
      destruct (number next <=? L); [apply IH; lia|].
      destruct (processMessage tx next); [eauto|apply IH; lia].
Qed.

(** X6.  No transition deletes a row or touches the row of another
    channel, and the row of its own channel, where there is one afterwards,
    carries the message's number. *)
Theorem transitions_keep_rows tx msg tx' :
  processMessage tx msg = inr tx' ->
  (forall c, is_Some (tx !! c) -> is_Some (tx' !! c)) /\
  (forall c, Channel (metadata msg) ≠ c -> tx' !! c = tx !! c) /\
  (forall r, tx' !! Channel (metadata msg) = Some r -> last_message_number r = number msg).
Proof.
  intros Hp. split; [|split].
  - intros c. by eapply processMessage_is_Some.
  - intros c. by eapply processMessage_other.
  - intros r. by eapply processMessage_number.
Qed.

Lemma IsSpeedIncreased_Valid msg : IsSpeedIncreased msg -> Valid msg.
Proof. intros [Hk [m Hm]]. by eapply valid_increased. Qed.

(** Speed increases applied in a row add up; the other columns stay. *)
Lemma applyAll_increases c (es : list RocketMessage) tx r v :
  Forall IsSpeedIncreased es -> Forall (fun e => Channel (metadata e) = c) es ->
  tx !! c = Some r -> speed r = Some v ->
  exists tx' r',
    applyAll tx c es = inr tx' /\ tx' !! c = Some r' /\
    speed r' = Some (v + foldr Z.add 0 (delta <$> es)) /\
    type r' = type r /\ mission r' = mission r /\ status r' = status r.
Proof.
  revert tx r v. induction es as [|e es IH]; intros tx r v Hinc Hch Hr Hv.
  - exists tx, r. simpl. rewrite Z.add_0_r. done.
  - apply Forall_cons in Hinc as [[Hk [m Hm]] Hinc].
    apply Forall_cons in Hch as [Hc Hch]. simpl.
    rewrite (processMessage_increased _ _ m) by done. rewrite Hc.
    edestruct (IH (setLastMessageNumber (updateSpeedIncreased tx c (By m) (number e)) c
                     (number e))) as (tx' & r' & Happ & Hr' & Hv' & Ht & Hm' & Hs);
      [done|done| | |].
    + rewrite setLastMessageNumber_lookup, decide_True by done.
      unfold updateSpeedIncreased. rewrite lookup_alter_eq, Hr. reflexivity.
    + simpl. rewrite Hv. reflexivity.
    + exists tx', r'. split; [done|]. split; [done|].
      split; [|done]. rewrite Hv'. csimpl.
      assert (delta e = By m) as -> by (unfold delta; by rewrite Hm). f_equal.
      symmetry. apply Z.add_assoc.
Qed.

(** X7.  Speed increases numbered 1 .. N for a key whose row stands at
    watermark 0 with speed [v] and whose buffer is empty, where [v], every
    increase and every sum of [v] and the first [k] increases are 64-bit
    integers (no [speed + ?] overflows): submitted in any order, one call
    each, they all return success and leave the row at speed [v] plus the
    sum of the increases and at watermark N, with type, mission and status
    as they were. *)
Theorem speed_increases_accumulate i c (es ps : list RocketMessage) r v :
  number <$> es = seqZ 1 (Z.of_nat (length es)) ->
  Forall IsSpeedIncreased es ->
  Forall (fun e => Channel (metadata e) = c) es ->
  Z.of_nat (length es) <= MaxInt ->
  buffered (messageBuffers i) c = [] ->
  db i !! c = Some r -> last_message_number r = 0 -> speed r = Some v ->
  int_ok v ->
  Forall (fun e => int_ok (delta e)) es ->
  (forall k, Nat.le k (length es) -> int_ok (v + foldr Z.add 0 (delta <$> take k es))) ->
  ps ≡ₚ es ->
  exists i' r',
    UpdateAll i ps = Some (i', replicate (length es) None) /\
    db i' !! c = Some r' /\
    speed r' = Some (v + foldr Z.add 0 (delta <$> es)) /\
    last_message_number r' = Z.of_nat (length es) /\
    type r' = type r /\ mission r' = mission r /\ status r' = status r.
Proof.
  intros Hnum Hinc Hch Hmax Hbuf Hr Hw Hv _ _ _ Hperm.
  assert (Forall Valid es) as Hvalid.
  { eapply Forall_impl; [exact Hinc|]. apply IsSpeedIncreased_Valid. }
  assert (watermark i c = 0) as Hw0.
  { unfold watermark, readLastMessageNumber. by rewrite Hr. }
  destruct (run_permutation i c es Hnum Hvalid Hch Hmax Hbuf Hw0
              (or_introl (mk_is_Some _ _ Hr)) ps Hperm) as (i' & Hu & Happ & Hw' & _).
  destruct (applyAll_increases c es (db i) r v) as (tx' & r' & Happ' & Hr' & Hrest);
    [done..|].
  rewrite Happ in Happ'. injection Happ' as <-.
  exists i', r'. split; [done|]. split; [done|].
  destruct Hrest as (? & ? & ? & ?). repeat split; try done.
  unfold watermark, readLastMessageNumber in Hw'. by rewrite Hr' in Hw'.
Qed.

(** ** The read path *)

(** X8.  A Launched event that arrives in order, with no event of the next
    number waiting, is applied and can be read back: the call returns
    success, [GetRocket] returns the type, speed and mission of the payload
    with status launched, and the watermark is the event's number. *)
Theorem launched_then_get i msg m :
  Reachable i -> int_ok (number msg) ->
  number msg = watermark i (Channel (metadata msg)) + 1 ->
  MessageType (metadata msg) = "RocketLaunched"%string ->
  UnmarshalLaunched (message msg) = inr m ->
  (forall b, b ∈ buffered (messageBuffers i) (Channel (metadata msg)) ->
             number b ≠ number msg + 1) ->
  exists i',
    UpdateRocketState i msg = Some (i', None) /\
    queries.GetRocket (db i') (Channel (metadata msg)) =
      inr {| queries.Channel := Channel (metadata msg);
             queries.Type_ := Some (Type_ m);
             queries.Speed := Some (LaunchSpeed m);
             queries.Mission := Some (Mission m);
             queries.Status := Some "launched"%string |} /\
    watermark i' (Channel (metadata msg)) = number msg /\
    messageBuffers i' = messageBuffers i.
Proof.
  intros [_ Hbufs]%Reachable_invariant Hok Hn Hk Hm Hnext.
  rewrite UpdateRocketState_in_order by done. unfold applyInOrder.
  rewrite (processMessage_launched _ _ m) by done.
  rewrite drain_break.
  - eexists. split; [done|]. simpl.
    assert (setLastMessageNumber
              (upsertLaunched (db i) (Channel (metadata msg)) m (number msg))
              (Channel (metadata msg)) (number msg) !! Channel (metadata msg)
            = Some {| type := Some (Type_ m); speed := Some (LaunchSpeed m);
                      mission := Some (Mission m); status := Some "launched"%string;
                      last_message_number := number msg |}) as Hrow.
    { rewrite setLastMessageNumber_lookup, decide_True by done.
      unfold upsertLaunched. by rewrite lookup_insert_eq. }
    split; [|split; [|done]].
    + unfold queries.GetRocket. by rewrite Hrow.
    + unfold watermark, readLastMessageNumber. simpl. by rewrite Hrow.
  - apply getNextMessage_None. intros b Hb Heq.
    destruct (Hbufs (Channel (metadata msg))) as [_ Hall].
    destruct (Hall b Hb) as (_ & Hb_ok & Hgt).
    apply (Hnext b Hb). apply next_number; [done|done|lia|done].
Qed.

Lemma processMessage_creates tx msg tx' c :
  processMessage tx msg = inr tx' -> tx !! c = None -> is_Some (tx' !! c) ->
  MessageType (metadata msg) = "RocketLaunched"%string /\ Channel (metadata msg) = c.
Proof.
  unfold processMessage. rewrite MessageHandlers_lookup.
  repeat case_decide; simpl; try done.
  - destruct (UnmarshalLaunched _) as [|m]; [done|]. intros [= <-] Hnone.
    unfold upsertLaunched. rewrite lookup_insert. case_decide; [done|].
    rewrite Hnone. by intros [? ?].
  - destruct (UnmarshalSpeedChanged _) as [|m]; [done|]. intros [= <-] Hnone.
    unfold updateSpeedIncreased. rewrite lookup_alter_is_Some, Hnone. by intros [? ?].
  - destruct (UnmarshalSpeedChanged _) as [|m]; [done|]. intros [= <-] Hnone.
    unfold updateSpeedDecreased. rewrite lookup_alter_is_Some, Hnone. by intros [? ?].
  - destruct (UnmarshalExploded _) as [|m]; [done|]. intros [= <-] Hnone.
    unfold updateExploded. rewrite lookup_alter_is_Some, Hnone. by intros [? ?].
  - destruct (UnmarshalMissionChanged _) as [|m]; [done|]. intros [= <-] Hnone.
    unfold updateMissionChanged. rewrite lookup_alter_is_Some, Hnone. by intros [? ?].
Qed.

Lemma drain_creates c fuel tx bufs L bufs' txEnd c' :
  drain fuel tx bufs c L = Some (bufs', inr txEnd) ->
  tx !! c' = None -> is_Some (txEnd !! c') ->
  exists l, l ∈ buffered bufs c /\
    MessageType (metadata l) = "RocketLaunched"%string /\ Channel (metadata l) = c'.
Proof.
  intros Hd.
  refine (drain_elim c
    (fun tx bufs L r => forall bufs' txEnd, r = (bufs', inr txEnd) ->
       tx !! c' = None -> is_Some (txEnd !! c') ->
       exists l, l ∈ buffered bufs c /\
         MessageType (metadata l) = "RocketLaunched"%string /\ Channel (metadata l) = c')
    _ _ _ _ fuel tx bufs L _ Hd bufs' txEnd eq_refl); clear.
  - intros tx bufs L _ bufs' txEnd [= <- <-] Hnone [? Hsome]. congruence.
  - intros tx bufs L next r _ _ IH bufs' txEnd -> Hnone Hsome.
    destruct (IH _ _ eq_refl Hnone Hsome) as (l & Hl & ?). exists l. split; [|done].
    eapply elem_of_sublist; [done|apply removeMessage_sublist].
  - done.
  - intros tx bufs L next tx' r Hnext _ Hp IH bufs' txEnd -> Hnone Hsome.
    apply getNextMessage_Some in Hnext as [Hin _].
    destruct (tx' !! c') as [row|] eqn:Hrow.
    + exists next. split; [done|]. eapply processMessage_creates; [done..|by rewrite Hrow].
    + destruct (IH _ _ eq_refl) as (l & Hl & ?); [|done|].
      * by rewrite setLastMessageNumber_lookup; case_decide; subst; rewrite ?Hrow.
      * exists l. split; [|done].
        eapply elem_of_sublist; [done|apply removeMessage_sublist].
Qed.

(** X9.  [GetRocket] answers rocket not found for a key until a Launched
    event for that key is applied: if a call makes the key readable, the
    submitted message or one of the messages buffered for its channel is a
    Launched for that key. *)
Theorem row_comes_from_launch i msg i' r c :
  UpdateRocketState i msg = Some (i', r) ->
  queries.GetRocket (db i) c = inl "rocket not found"%string ->
  (exists rs, queries.GetRocket (db i') c = inr rs) ->
  exists l,
    (l = msg \/ l ∈ buffered (messageBuffers i) (Channel (metadata msg))) /\
    MessageType (metadata l) = "RocketLaunched"%string /\ Channel (metadata l) = c.
Proof.
  unfold queries.GetRocket. intros Hu Hnone [rs Hsome].
  destruct (db i !! c) as [|] eqn:Hrow; [done|]. clear Hnone.
  destruct (db i' !! c) as [row'|] eqn:Hrow'; [|done]. clear Hsome.
  revert Hu. unfold UpdateRocketState.
  destruct (_ <=? _); [intros [= <- <-]; simpl in *; congruence|].
  destruct (_ >? _); [intros [= <- <-]; simpl in *; congruence|].
  unfold applyInOrder. destruct (processMessage (db i) msg) as [|tx'] eqn:Hp.
  { intros [= <- <-]; simpl in *; congruence. }
  destruct (drain _ _ _ _ _) as [[bufs [err|txEnd]]|] eqn:Hd; [| |done].
  { intros [= <- <-]. simpl in *. congruence. }
  intros [= <- <-]. simpl in *.
  destruct (tx' !! c) as [row|] eqn:Htx'.
  - exists msg. split; [by left|]. eapply processMessage_creates; [done..|by rewrite Htx'].
  - destruct (drain_creates _ _ _ _ _ _ _ c Hd) as (l & Hl & ?); [|by rewrite Hrow'|].
    + by rewrite setLastMessageNumber_lookup; case_decide; subst; rewrite ?Htx'.
    + exists l. split; [by right|done].
Qed.

Lemma orderBy_default sortBy :
  sortBy ≠ "speed"%string -> sortBy ≠ "mission"%string -> sortBy ≠ "status"%string ->
  queries.orderBy sortBy = queries.ByChannel.
Proof.
  intros H1 H2 H3. unfold queries.orderBy.
  by rewrite (proj2 (String.eqb_neq _ _) H1), (proj2 (String.eqb_neq _ _) H2),
    (proj2 (String.eqb_neq _ _) H3).
Qed.

(** X11.  Any sort key other than speed, mission and status orders by
    channel, and the result is then determined: two results of the query
    are equal, in ascending order of the channels. *)
Theorem list_by_channel_is_determined d sortBy l1 l2 :
  sortBy ≠ "speed"%string -> sortBy ≠ "mission"%string -> sortBy ≠ "status"%string ->
  queries.ListRockets d sortBy l1 -> queries.ListRockets d sortBy l2 ->
  l1 = l2 /\
  StronglySorted (fun a b => String.leb (queries.Channel a) (queries.Channel b) = true) l1.
Proof.
  intros H1 H2 H3 (rows1 & Hperm1 & Hsort1 & ->) (rows2 & Hperm2 & Hsort2 & ->).
  rewrite orderBy_default in Hsort1, Hsort2 by done.
  assert (rows1 = rows2) as <-.
  { eapply StronglySorted_unique_strong; [|done..|by rewrite Hperm1, Hperm2].
    intros [c1 r1] [c2 r2] Hin1 Hin2 Hle Hge. simpl in *.
    assert (c1 = c2) as <- by (by apply String.leb_antisym).
    rewrite Hperm1 in Hin1. rewrite Hperm2 in Hin2.
    apply elem_of_map_to_list in Hin1, Hin2. congruence. }
  split; [done|].
  eapply (StronglySorted_fmap _ (queries.ordered queries.ByChannel)); [|done].
  by intros [c1 r1] [c2 r2].
Qed.

(** ** The HTTP handlers *)

(** X12.  POST /messages answers 200 or 400 and nothing else.  It answers
    200 exactly when the body decodes and [UpdateRocketState] returns no
    error; a 400 leaves the table as it was; and a delivery answered 200
    can be delivered again: the answer is 200 again and the inventory stays
    as the first delivery left it. *)
Theorem handleMessage_status i (decoded : error + RocketMessage) :
  exists i' resp,
    api.handleMessage i decoded = Some (i', resp) /\
    (api.StatusCode resp = 200 \/ api.StatusCode resp = 400) /\
    (api.StatusCode resp = 200 <->
     exists msg, decoded = inr msg /\ UpdateRocketState i msg = Some (i', None)) /\
    (api.StatusCode resp = 400 -> db i' = db i) /\
    (api.StatusCode resp = 200 -> api.handleMessage i' decoded = Some (i', resp)).
Proof.
  unfold api.handleMessage. destruct decoded as [err|msg].
  - eexists _, _. split; [done|]. simpl. split; [by right|].
    split; [|split; [done|by intros [=]]].
    split; [by intros [=]|]. by intros (msg & [=] & _).
  - destruct (UpdateRocketState_total i msg) as [[i' [err|]] Hu]; rewrite Hu.
    + eexists _, _. split; [done|]. simpl. split; [by right|].
      split; [|split; [|by intros [=]]].
      * split; [by intros [=]|]. intros (msg' & [= <-] & Hu'). congruence.
      * intros _. by eapply UpdateRocketState_error_db.
    + eexists _, _. split; [done|]. simpl. split; [by left|].
      split; [|split; [by intros [=]|]].
      * split; [|done]. intros _. by exists msg.
      * intros _. by rewrite (UpdateRocketState_again _ _ _ Hu).
Qed.

(** X13.  POST then GET.  Before a key has a row, GET /rockets/{key}
    answers 404 with rocket not found.  Once a Launched event for the key
    is posted in order, with no event of the next number waiting, the POST
    answers 200 and the GET answers 200 with the launched rocket. *)
Theorem post_then_get i msg m :
  Reachable i -> int_ok (number msg) ->
  number msg = watermark i (Channel (metadata msg)) + 1 ->
  MessageType (metadata msg) = "RocketLaunched"%string ->
  UnmarshalLaunched (message msg) = inr m ->
  (forall b, b ∈ buffered (messageBuffers i) (Channel (metadata msg)) ->
             number b ≠ number msg + 1) ->
  (db i !! Channel (metadata msg) = None ->
   api.handleRockets (db i) (Channel (metadata msg)) =
     {| api.StatusCode := 404; api.Content := api.ErrorText "rocket not found" |}) /\
  exists i',
    api.handleMessage i (inr msg) =
      Some (i', {| api.StatusCode := 200; api.Content := api.MessageProcessed |}) /\
    api.handleRockets (db i') (Channel (metadata msg)) =
      {| api.StatusCode := 200;
         api.Content := api.OneRocket
           {| queries.Channel := Channel (metadata msg);
              queries.Type_ := Some (Type_ m);
              queries.Speed := Some (LaunchSpeed m);
              queries.Mission := Some (Mission m);
              queries.Status := Some "launched"%string |} |}.
Proof.
  intros [_ Hbufs]%Reachable_invariant Hok Hn Hk Hm Hnext. split.
  { intros Hrow. unfold api.handleRockets, queries.GetRocket. by rewrite Hrow. }
  unfold api.handleMessage.
  rewrite UpdateRocketState_in_order by done. unfold applyInOrder.
  rewrite (processMessage_launched _ _ m) by done.
  rewrite drain_break.
  - eexists. split; [done|]. simpl.
    unfold api.handleRockets, queries.GetRocket.
    rewrite setLastMessageNumber_lookup, decide_True by done.
    unfold upsertLaunched. by rewrite lookup_insert_eq.
  - apply getNextMessage_None. intros b Hb Heq.
    destruct (Hbufs (Channel (metadata msg))) as [_ Hall].
    destruct (Hall b Hb) as (_ & Hb_ok & Hgt).
    apply (Hnext b Hb). apply next_number; [done|done|lia|done].
Qed.

(** ** The lock registry *)

(** Every mutex in the registry was allocated, and no two channels share
    one. *)
Lemma LocksReachable_invariant reg :
  LocksReachable reg ->
  (forall c l, locks reg !! c = Some l -> (l < allocated reg)%nat) /\
  (forall c1 c2 l, locks reg !! c1 = Some l -> locks reg !! c2 = Some l -> c1 = c2).
Proof.
  induction 1 as [|reg channel _ [IHlt IHinj]].
  - split; intros *; simpl; by rewrite lookup_empty.
  - unfold getLock. destruct (locks reg !! channel) as [lock|] eqn:Hl; simpl; [done|].
    split.
    + intros c l. rewrite lookup_insert. case_decide; [intros [= <-]; lia|].
      intros Hc%IHlt. lia.
    + intros c1 c2 l. rewrite !lookup_insert. repeat case_decide; subst; try done.
      * intros [= <-] Hc%IHlt. lia.
      * intros Hc%IHlt [= <-]. lia.
      * apply IHinj.
Qed.

(** X14.  One mutex per channel: [getLock] returns for a channel the mutex
    it returned for it before, without changing the registry; it returns
    different mutexes for different channels; and the registry keeps every
    mutex it ever handed out. *)
Theorem getLock_per_channel reg c1 c2 :
  LocksReachable reg ->
  let '(l1, reg1) := getLock reg c1 in
  let '(l2, reg2) := getLock reg1 c2 in
  (l1 = l2 <-> c1 = c2) /\
  (c1 = c2 -> reg2 = reg1) /\
  locks reg1 !! c1 = Some l1 /\
  locks reg2 !! c1 = Some l1 /\
  locks reg2 !! c2 = Some l2 /\
  (forall c l, locks reg !! c = Some l -> locks reg2 !! c = Some l).
Proof.
  intros Hreg.
  pose proof (locks_get reg c1 Hreg) as Hreg1.
  destruct (getLock reg c1) as [l1 reg1] eqn:H1. simpl in Hreg1.
  pose proof (locks_get reg1 c2 Hreg1) as Hreg2.
  destruct (getLock reg1 c2) as [l2 reg2] eqn:H2. simpl in Hreg2.
  destruct (LocksReachable_invariant _ Hreg2) as [_ Hinj].
  assert (forall r c l r', getLock r c = (l, r') ->
            locks r' !! c = Some l /\
            forall c' l', locks r !! c' = Some l' -> locks r' !! c' = Some l') as Hget.
  { intros r c l r'. unfold getLock. destruct (locks r !! c) as [lock|] eqn:Hl.
    - by intros [= <- <-].
    - intros [= <- <-]. simpl. split; [by rewrite lookup_insert_eq|].
      intros c' l' Hc'. rewrite lookup_insert_ne; [done|]. congruence. }
  destruct (Hget _ _ _ _ H1) as [Hl1 Hkeep1]. destruct (Hget _ _ _ _ H2) as [Hl2 Hkeep2].
  pose proof (Hkeep2 _ _ Hl1) as Hl1'.
  split; [|split; [|split; [done|split; [done|split; [done|]]]]].
  - split; [intros <-; by eapply Hinj|]. intros <-. congruence.
  - intros <-. unfold getLock in H2. rewrite Hl1 in H2. by injection H2 as _ <-.
  - intros c l Hc. by apply Hkeep2, Hkeep1.
Qed.

(** ** What the handlers write *)

(** A property of tables that every transition and every watermark write
    keeps is kept by [UpdateRocketState]. *)
Lemma UpdateRocketState_preserves (P : Rockets -> Prop) i msg i' r :
  (forall tx m tx', P tx -> processMessage tx m = inr tx' -> P tx') ->
  (forall tx c n, P tx -> P (setLastMessageNumber tx c n)) ->
  P (db i) -> UpdateRocketState i msg = Some (i', r) -> P (db i').
Proof.
  intros Hproc Hset Hi. unfold UpdateRocketState.
  destruct (_ <=? _); [by intros [= <- <-]|]. destruct (_ >? _); [by intros [= <- <-]|].
  unfold applyInOrder. destruct (processMessage (db i) msg) as [|tx'] eqn:Hp.
  { by intros [= <- <-]. }
  destruct (drain _ _ _ _ _) as [[bufs [err|txEnd]]|] eqn:Hd; [by intros [= <- <-]| |done].
  intros [= <- <-]. simpl.
  assert (P (setLastMessageNumber tx' (Channel (metadata msg)) (number msg))) as Hstart
    by eauto.
  revert Hstart.
  refine (drain_elim (Channel (metadata msg))
    (fun tx bufs L r => forall bufs' txEnd, r = (bufs', inr txEnd) -> P tx -> P txEnd)
    _ _ _ _ _ _ _ _ _ Hd bufs txEnd eq_refl); clear -Hproc Hset.
  - by intros tx bufs L _ bufs' txEnd [= <- <-].
  - intros tx bufs L next r _ _ IH bufs' txEnd ->. by apply (IH _ _ eq_refl).
  - done.
  - intros tx bufs L next tx' r _ _ Hp IH bufs' txEnd -> Htx.
    apply (IH _ _ eq_refl). eauto.
Qed.

Lemma processMessage_statuses tx msg tx' :
  statuses_ok tx -> processMessage tx msg = inr tx' -> statuses_ok tx'.
Proof.
  intros Htx. unfold processMessage. rewrite MessageHandlers_lookup.
  repeat case_decide; simpl; try done.
  - destruct (UnmarshalLaunched _) as [|m]; [done|]. intros [= <-] c r s.
    unfold upsertLaunched. rewrite lookup_insert. case_decide; [|apply Htx].
    intros [= <-]. simpl. intros [= <-]. by left.
  - destruct (UnmarshalSpeedChanged _) as [|m]; [done|]. intros [= <-] c r s.
    unfold updateSpeedIncreased. rewrite lookup_alter. case_decide; [subst c|apply Htx].
    destruct (tx !! _) as [r0|] eqn:Er; [|done]. simpl. intros [= <-]. simpl.
    by apply (Htx _ _ _ Er).
  - destruct (UnmarshalSpeedChanged _) as [|m]; [done|]. intros [= <-] c r s.
    unfold updateSpeedDecreased. rewrite lookup_alter. case_decide; [subst c|apply Htx].
    destruct (tx !! _) as [r0|] eqn:Er; [|done]. simpl. intros [= <-]. simpl.
    by apply (Htx _ _ _ Er).
  - destruct (UnmarshalExploded _) as [|m]; [done|]. intros [= <-] c r s.
    unfold updateExploded. rewrite lookup_alter. case_decide; [subst c|apply Htx].
    destruct (tx !! _) as [r0|] eqn:Er; [|done]. simpl. intros [= <-]. simpl.
    intros [= <-]. by right.
  - destruct (UnmarshalMissionChanged _) as [|m]; [done|]. intros [= <-] c r s.
    unfold updateMissionChanged. rewrite lookup_alter. case_decide; [subst c|apply Htx].
    destruct (tx !! _) as [r0|] eqn:Er; [|done]. simpl. intros [= <-]. simpl.
    by apply (Htx _ _ _ Er).
Qed.

(** X15.  The only statuses the service writes are launched and exploded:
    a table whose statuses are among these (an empty table, say) keeps
    that through every call of [UpdateRocketState], and [GetRocket] never
    returns another status. *)
Theorem statuses_are_launched_or_exploded i msg i' r :
  statuses_ok (db i) -> UpdateRocketState i msg = Some (i', r) ->
  statuses_ok (db i') /\
  forall c rs s, queries.GetRocket (db i') c = inr rs -> queries.Status rs = Some s ->
    s = "launched"%string \/ s = "exploded"%string.
Proof.
  intros Hi Hu.
  assert (statuses_ok (db i')) as Hi'.
  { eapply (UpdateRocketState_preserves statuses_ok); [| |done..].
    - intros tx m tx' Htx Hp. by eapply processMessage_statuses.
    - intros tx c n Htx c' row s. rewrite setLastMessageNumber_lookup.
      case_decide; [subst c'|apply Htx].
      destruct (tx !! c) as [r0|] eqn:Er; [|done]. simpl. intros [= <-]. simpl.
      by apply (Htx _ _ _ Er). }
  split; [done|]. intros c rs s. unfold queries.GetRocket.
  destruct (db i' !! c) as [row|] eqn:Hrow; [|done]. intros [= <-]. simpl.
  by apply (Hi' _ _ _ Hrow).
Qed.

(** X16.  What each statement writes.  A Launched leaves a row that is
    the payload's alone, whatever the row was.  The four UPDATEs keep the
    type; only the two speed changes touch the speed, only MissionChanged
    the mission, only Exploded the status. *)
Theorem transitions_frame tx msg tx' r' :
  processMessage tx msg = inr tx' ->
  tx' !! Channel (metadata msg) = Some r' ->
  (MessageType (metadata msg) = "RocketLaunched"%string ->
   exists m, UnmarshalLaunched (message msg) = inr m /\
     r' = {| type := Some (Type_ m); speed := Some (LaunchSpeed m);
             mission := Some (Mission m); status := Some "launched"%string;
             last_message_number := number msg |}) /\
  (MessageType (metadata msg) ≠ "RocketLaunched"%string ->
   exists r, tx !! Channel (metadata msg) = Some r /\
     type r' = type r /\
     (MessageType (metadata msg) ≠ "RocketSpeedIncreased"%string ->
      MessageType (metadata msg) ≠ "RocketSpeedDecreased"%string -> speed r' = speed r) /\
     (MessageType (metadata msg) ≠ "RocketMissionChanged"%string ->
      mission r' = mission r) /\
     (MessageType (metadata msg) ≠ "RocketExploded"%string -> status r' = status r)).
Proof.
  unfold processMessage. rewrite MessageHandlers_lookup.
  repeat case_decide; simpl; try done.
  - destruct (UnmarshalLaunched _) as [|m]; [done|]. intros [= <-].
    unfold upsertLaunched. rewrite lookup_insert_eq. intros [= <-].
    split; [|done]. intros _. by exists m.
  - destruct (UnmarshalSpeedChanged _) as [|m]; [done|]. intros [= <-].
    unfold updateSpeedIncreased. rewrite lookup_alter_eq.
    destruct (tx !! _) as [r|]; [|done]. simpl. intros [= <-].
    split; [done|]. intros _. exists r. simpl. repeat split; done.
  - destruct (UnmarshalSpeedChanged _) as [|m]; [done|]. intros [= <-].
    unfold updateSpeedDecreased. rewrite lookup_alter_eq.
    destruct (tx !! _) as [r|]; [|done]. simpl. intros [= <-].
    split; [done|]. intros _. exists r. simpl. repeat split; done.
  - destruct (UnmarshalExploded _) as [|m]; [done|]. intros [= <-].
    unfold updateExploded. rewrite lookup_alter_eq.
    destruct (tx !! _) as [r|]; [|done]. simpl. intros [= <-].
    split; [done|]. intros _. exists r. simpl. repeat split; done.
  - destruct (UnmarshalMissionChanged _) as [|m]; [done|]. intros [= <-].
    unfold updateMissionChanged. rewrite lookup_alter_eq.
    destruct (tx !! _) as [r|]; [|done]. simpl. intros [= <-].
    split; [done|]. intros _. exists r. simpl. repeat split; done.
Qed.

End Properties.

(** * Closed instances

    The properties at test data, with the decoder [JsonDoc], and the inputs
    on which the engine departs from its description. *)

Lemma int_ok_small z : -1000 <= z <= 1000 -> int_ok z.
Proof. unfold int_ok, MinInt, MaxInt. lia. Qed.

Lemma bogus_unknown n : MessageType (metadata (bogus n)) ∉ kinds.
Proof.
  change (MessageType (metadata (bogus n))) with "Bogus"%string.
  unfold kinds. rewrite !not_elem_of_cons.
  repeat split; try discriminate. apply not_elem_of_nil.
Qed.

(** Bogus(2) waits in the buffer; Launched(1) applies, the drain then fails
    on Bogus(2): the call returns the error, and the table has no row for
    the key, so the watermark is 0 and not the 1 of the applied Launched. *)
Lemma drain_failure_loses_applied_event :
  returned [bogus 2; launched 1 500] = [None; Some "invalid message type: Bogus"%string] /\
  processMessage (db (after [bogus 2])) (launched 1 500)
    = inr (upsertLaunched ∅ "test-channel"
             {| Type_ := "Falcon-9"; LaunchSpeed := 500; Mission := "ARTEMIS" |} 1) /\
  db (after [bogus 2; launched 1 500]) !! "test-channel"%string = None /\
  watermark (after [bogus 2; launched 1 500]) "test-channel" = 0 /\
  watermark (after [bogus 2; launched 1 500]) "test-channel" ≠ 1.
Proof.
  split; [vm_compute; reflexivity|]. split; [vm_compute; reflexivity|].
  split; [vm_compute; reflexivity|]. split; [vm_compute; reflexivity|].
  vm_compute. discriminate.
Qed.

Lemma drain_failure_rolls_back_witness :
  let i := after [bogus 2] in
  let i' := after [bogus 2; launched 1 500] in
  db i' = db i /\
  watermark i' "test-channel" = watermark i "test-channel" /\
  exists bad,
    bad ∈ buffered (messageBuffers i) "test-channel" /\
    Rejected bad "invalid message type: Bogus" /\
    (forall m, m ∈ buffered (messageBuffers i') "test-channel" -> number m ≠ number bad) /\
    buffered (messageBuffers i') "test-channel"
      `sublist_of` buffered (messageBuffers i) "test-channel".
Proof.
  intros i i'.
  assert (processMessage (db i) (launched 1 500)
          = inr (upsertLaunched ∅ "test-channel"
                   {| Type_ := "Falcon-9"; LaunchSpeed := 500; Mission := "ARTEMIS" |} 1))
    as Hp by (vm_compute; reflexivity).
  assert (UpdateRocketState i (launched 1 500)
          = Some (i', Some "invalid message type: Bogus"%string))
    as Hu by (vm_compute; reflexivity).
  exact (drain_failure_rolls_back i (launched 1 500) _ i' _ Hp Hu).
Defined.

Lemma rejected_in_order_event_changes_nothing_witness :
  UpdateRocketState emptyInventory (bogus 1)
    = Some (emptyInventory, Some "invalid message type: Bogus"%string) /\
  db emptyInventory !! "test-channel"%string = None.
Proof.
  split; [|reflexivity].
  refine (proj1 (rejected_in_order_event_changes_nothing emptyInventory (bogus 1)
                   "invalid message type: Bogus" _ _ _)).
  - apply int_ok_small. change (number (bogus 1)) with 1. lia.
  - reflexivity.
  - apply (rejected_kind (bogus 1)), bogus_unknown.
Defined.

(** A launch at speed 100, a decrease by 500 that clamps at 0, then an
    increase by -300: the speed ends at -300, through [processMessage] and
    through [UpdateRocketState] alike. *)
Lemma negative_increase_gives_negative_speed :
  let msgs := [launched 1 100; speedDecreased 2 500; speedIncreased 3 (-300)] in
  returned msgs = [None; None; None] /\
  processAll ∅ msgs = inr (db (after msgs)) /\
  speed <$> db (after msgs) !! "test-channel"%string = Some (Some (-300)) /\
  ~ nonNegative (db (after msgs)).
Proof.
  intros msgs.
  split; [vm_compute; reflexivity|]. split; [vm_compute; reflexivity|].
  split; [vm_compute; reflexivity|].
  intros Hnn.
  assert (0 <= -300); [|lia].
  apply (Hnn "test-channel"%string
           {| type := Some "Falcon-9"%string; speed := Some (-300);
              mission := Some "ARTEMIS"%string; status := Some "launched"%string;
              last_message_number := 3 |}); [vm_compute|]; reflexivity.
Qed.

Local Ltac closed_input :=
  split; intros Hk m Hm; vm_compute in Hk, Hm;
  first [discriminate Hk | injection Hm as <-; vm_compute; discriminate].

(** One message of a closed run: its payload numbers and the sum or
    difference it brings are small, and the run goes on from the table the
    message leaves. *)
Local Ltac small_int := apply int_ok_small; simpl; lia.

Local Ltac within_step :=
  cbn [withinInt]; split; [|split];
  [ split; intros p Hp; vm_compute in Hp;
    first [discriminate Hp | injection Hp as <-; small_int]
  | intros p r v Hp Hr Hv; vm_compute in Hp, Hr;
    first [ discriminate Hp | discriminate Hr
          | injection Hp as <-; injection Hr as <-; vm_compute in Hv; injection Hv as <-;
            split; intros _; small_int ]
  | lazymatch goal with
    | |- context [processMessage ?tx ?m] =>
        let x := eval vm_compute in (processMessage tx m) in
        change (processMessage tx m) with x; cbv beta iota
    end ].

Lemma speed_decreased_clamps_witness :
  (exists tx' r',
     processMessage (<["test-channel"%string :=
                        {| type := None; speed := Some 500; mission := None; status := None;
                           last_message_number := 0 |}]> ∅) (speedDecreased 1 600) = inr tx' /\
     tx' !! "test-channel"%string = Some r' /\
     speed r' = Some (Z.max 0 (500 - 600))) /\
  (forall tx',
     processAll ∅ [launched 1 100; speedDecreased 2 500; speedIncreased 3 300] = inr tx' ->
     nonNegative tx' /\ intSpeeds tx').
Proof.
  split.
  - refine (proj1 (speed_decreased_clamps (H := JsonDoc)) _ (speedDecreased 1 600)
              {| By := 600 |}
              {| type := None; speed := Some 500; mission := None; status := None;
                 last_message_number := 0 |} 500 eq_refl eq_refl _ eq_refl _ _ _);
      [vm_compute; reflexivity|apply int_ok_small; simpl; lia..].
  - intros tx'.
    refine (proj2 (speed_decreased_clamps (H := JsonDoc)) _ ∅ tx' _ _ _ _).
    + intros c r v Hr. by rewrite lookup_empty in Hr.
    + intros c r v Hr. by rewrite lookup_empty in Hr.
    + repeat apply Forall_cons_2; [closed_input..|apply Forall_nil_2].
    + repeat within_step. exact I.
Defined.

(** The registry's error for the kind Bogus. *)
Lemma unknown_kind_error_is_invalid_message_type :
  processMessage ∅ (bogus 1) = inl "invalid message type: Bogus"%string /\
  processMessage ∅ (bogus 1) ≠ inl "unrecognized transition kind: Bogus"%string.
Proof. split; [reflexivity|]. by vm_compute. Qed.

Lemma unknown_kind_error_text_witness :
  processMessage ∅ (bogus 1) = inl "invalid message type: Bogus"%string.
Proof.
  apply (unknown_kind_error_text (H := JsonDoc) ∅ (bogus 1)), bogus_unknown.
Defined.

(** Bogus(2) waits in the buffer.  The first Launched(1) returns the
    drain's error and leaves no row; the same Launched(1) submitted again
    returns success and leaves a row at watermark 1. *)
Lemma resubmission_after_drain_failure_differs :
  returned [bogus 2; launched 1 500; launched 1 500]
    = [None; Some "invalid message type: Bogus"%string; None] /\
  db (after [bogus 2; launched 1 500]) !! "test-channel"%string = None /\
  watermark (after [bogus 2; launched 1 500]) "test-channel" = 0 /\
  db (after [bogus 2; launched 1 500; launched 1 500]) !! "test-channel"%string ≠ None /\
  watermark (after [bogus 2; launched 1 500; launched 1 500]) "test-channel" = 1 /\
  db (after [bogus 2; launched 1 500; launched 1 500]) ≠ db (after [bogus 2; launched 1 500]).
Proof.
  split; [vm_compute; reflexivity|]. split; [vm_compute; reflexivity|].
  split; [vm_compute; reflexivity|]. split; [vm_compute; discriminate|].
  split; [vm_compute; reflexivity|].
  intros Heq. apply (f_equal (fun d => d !! "test-channel"%string)) in Heq.
  vm_compute in Heq. discriminate Heq.
Qed.

Lemma update_idempotent_witness :
  UpdateRocketState (after [launched 1 500]) (launched 1 500)
    = Some (after [launched 1 500], None) /\
  exists i2,
    UpdateRocketState (after [launched 1 500]) (launched 1 500) = Some (i2, None) /\
    db i2 = db (after [launched 1 500]) /\
    watermark i2 "test-channel" = watermark (after [launched 1 500]) "test-channel" /\
    messageBuffers i2 = messageBuffers (after [launched 1 500]).
Proof.
  split.
  - apply (proj1 (update_idempotent (H := JsonDoc))). vm_compute. discriminate.
  - apply (proj2 (update_idempotent (H := JsonDoc)) emptyInventory (launched 1 500)).
    vm_compute. reflexivity.
Defined.

Lemma out_of_order_scenario_witness :
  exists i1 i2 i3 r,
    UpdateRocketState emptyInventory (speedIncreased 3 200) = Some (i1, None) /\
    db i1 = db emptyInventory /\
    buffered (messageBuffers i1) "test-channel" = [speedIncreased 3 200] /\
    UpdateRocketState i1 (launched 1 500) = Some (i2, None) /\
    UpdateRocketState i2 (speedIncreased 2 300) = Some (i3, None) /\
    db i3 !! "test-channel"%string = Some r /\
    speed r = Some 1000 /\
    last_message_number r = 3 /\
    watermark i3 "test-channel" = 3 /\
    buffered (messageBuffers i3) "test-channel" = [].
Proof.
  exact (out_of_order_scenario (H := JsonDoc) emptyInventory "test-channel"
           (byDoc 200) (launchedDoc "Falcon-9" 500 "ARTEMIS") (byDoc 300) "" "" ""
           {| Type_ := "Falcon-9"; LaunchSpeed := 500; Mission := "ARTEMIS" |}
           eq_refl eq_refl eq_refl eq_refl eq_refl eq_refl).
Defined.

(** Launched(2) waits in the buffer of a key without a row.
    SpeedIncreased(1) returns success, and the drain that follows it applies
    Launched(2): the key has a row at watermark 2. *)
Lemma update_without_row_can_drain_a_launch :
  returned [launched 2 500; speedIncreased 1 200] = [None; None] /\
  db (after [launched 2 500]) !! "test-channel"%string = None /\
  db (after [launched 2 500; speedIncreased 1 200]) !! "test-channel"%string ≠ None /\
  watermark (after [launched 2 500; speedIncreased 1 200]) "test-channel" = 2.
Proof.
  split; [vm_compute; reflexivity|]. split; [vm_compute; reflexivity|].
  split; [vm_compute; discriminate|]. vm_compute. reflexivity.
Qed.

Lemma update_without_row_is_lost_witness :
  exists i',
    UpdateRocketState emptyInventory (speedIncreased 1 200) = Some (i', None) /\
    db i' !! "test-channel"%string = None /\
    watermark i' "test-channel" = 0 /\
    forall later,
      Channel (metadata later) = "test-channel"%string -> number later = 1 ->
      ~ number later <= watermark i' (Channel (metadata later)) /\
      UpdateRocketState i' later = applyInOrder i' (db i') later.
Proof.
  apply (update_without_row_is_lost (H := JsonDoc) emptyInventory (speedIncreased 1 200)).
  - reflexivity.
  - reflexivity.
  - by apply (valid_increased (speedIncreased 1 200) {| By := 200 |}).
  - discriminate.
  - reflexivity.
Defined.

(** What the test calls reach is reachable. *)
Lemma after_reachable msgs :
  Forall (fun m => int_ok (number m)) msgs -> Reachable (after msgs).
Proof.
  intros Hok. unfold after.
  destruct (UpdateAll_total emptyInventory msgs) as [[i rs] Hu]. rewrite Hu.
  eapply UpdateAll_reachable; [|done..].
  apply reachable_new. intros c r Hr. by rewrite lookup_empty in Hr.
Qed.

Local Ltac small_numbers :=
  repeat first [apply Forall_nil_2 | apply Forall_cons_2];
  apply int_ok_small; vm_compute; split; discriminate.

Lemma watermark_monotone_witness :
  watermark emptyInventory "test-channel" = 0 /\
  exists i' r,
    UpdateRocketState (after [speedIncreased 3 200; launched 1 500]) (speedIncreased 2 300)
      = Some (i', r) /\
    forall c, watermark (after [speedIncreased 3 200; launched 1 500]) c <= watermark i' c.
Proof.
  split.
  - by apply (proj1 (watermark_monotone (H := JsonDoc))).
  - apply (proj2 (watermark_monotone (H := JsonDoc))).
    + apply after_reachable. small_numbers.
    + apply int_ok_small. vm_compute. split; discriminate.
Defined.

Lemma reorder_buffer_invariant_witness :
  let i := after [speedIncreased 5 50; speedIncreased 3 200; speedIncreased 5 50;
                  speedIncreased 4 10] in
  ascending (buffered (messageBuffers i) "test-channel") /\
  NoDup (number <$> buffered (messageBuffers i) "test-channel") /\
  Forall (fun m => watermark i "test-channel" + 1 < number m)
    (buffered (messageBuffers i) "test-channel").
Proof.
  intros i. apply (reorder_buffer_invariant (H := JsonDoc)).
  apply after_reachable. small_numbers.
Defined.

(** The buffer of that inventory. *)
Lemma reorder_buffer_example :
  number <$> buffered (messageBuffers
    (after [speedIncreased 5 50; speedIncreased 3 200; speedIncreased 5 50;
            speedIncreased 4 10])) "test-channel" = [3; 4; 5].
Proof. vm_compute. reflexivity. Qed.

(** SpeedIncreased(1), Launched(2) on a fresh key.  In order, event 1
    matches no row and the watermark stays 0, so event 2 is buffered and the
    key ends without a row.  Reversed, event 2 waits, event 1 drains it and
    the key ends with a row at watermark 2. *)
Lemma order_matters_without_row :
  returned [speedIncreased 1 200; launched 2 500] = [None; None] /\
  returned [launched 2 500; speedIncreased 1 200] = [None; None] /\
  db (after [speedIncreased 1 200; launched 2 500]) !! "test-channel"%string = None /\
  watermark (after [speedIncreased 1 200; launched 2 500]) "test-channel" = 0 /\
  db (after [launched 2 500; speedIncreased 1 200]) !! "test-channel"%string ≠ None /\
  watermark (after [launched 2 500; speedIncreased 1 200]) "test-channel" = 2.
Proof.
  split; [vm_compute; reflexivity|]. split; [vm_compute; reflexivity|].
  split; [vm_compute; reflexivity|]. split; [vm_compute; reflexivity|].
  split; [vm_compute; discriminate|]. vm_compute. reflexivity.
Qed.

Lemma order_independence_witness :
  let es := [launched 1 500; speedIncreased 2 300; speedIncreased 3 200] in
  let ps := [speedIncreased 3 200; launched 1 500; speedIncreased 2 300] in
  exists iP iE,
    UpdateAll emptyInventory ps = Some (iP, replicate (length es) None) /\
    UpdateAll emptyInventory es = Some (iE, replicate (length es) None) /\
    db iP = db iE /\
    applyAll (db emptyInventory) "test-channel" es = inr (db iE) /\
    watermark iP "test-channel" = Z.of_nat (length es) /\
    watermark iE "test-channel" = Z.of_nat (length es) /\
    buffered (messageBuffers iP) "test-channel" = [] /\
    buffered (messageBuffers iE) "test-channel" = [].
Proof.
  intros es ps.
  apply (order_independence (H := JsonDoc) emptyInventory "test-channel" es ps).
  - vm_compute. reflexivity.
  - repeat apply Forall_cons_2; [..|apply Forall_nil_2].
    + by apply (valid_launched (launched 1 500)
                  {| Type_ := "Falcon-9"; LaunchSpeed := 500; Mission := "ARTEMIS" |}).
    + by apply (valid_increased (speedIncreased 2 300) {| By := 300 |}).
    + by apply (valid_increased (speedIncreased 3 200) {| By := 200 |}).
  - repeat apply Forall_cons_2; [..|apply Forall_nil_2]; reflexivity.
  - vm_compute. discriminate.
  - reflexivity.
  - reflexivity.
  - right. exists (launched 1 500). split; reflexivity.
  - exact (Permutation_app_comm [speedIncreased 3 200]
             [launched 1 500; speedIncreased 2 300]).
Defined.

(** The rocket is launched; the watermark write after a speed increase
    fails on the store: the call returns the store's error, and the row
    keeps speed 500 and watermark 1. *)
Lemma error_rolls_back_witness :
  let st : Store := fun k => if Nat.eqb k 3 then Some "database is locked"%string else None in
  let i := after [launched 1 500] in
  UpdateRocketStateOn st i (speedIncreased 2 100)
    = Some (Returned i (Some "database is locked"%string)) /\
  db i = db i /\
  ((exists n, st n = Some "database is locked"%string) \/
   Rejected (speedIncreased 2 100) "database is locked" \/
   exists bad, bad ∈ buffered (messageBuffers i) "test-channel" /\
               Rejected bad "database is locked") /\
  buffered (messageBuffers i) "test-channel"
    `sublist_of` buffered (messageBuffers i) "test-channel" /\
  forall c', "test-channel"%string ≠ c' -> messageBuffers i !! c' = messageBuffers i !! c'.
Proof.
  intros st i. split; [vm_compute; reflexivity|].
  apply (proj1 (proj2 (proj2 (error_rolls_back (H := JsonDoc) st i (speedIncreased 2 100))))
           i "database is locked"%string).
  vm_compute. reflexivity.
Defined.

Lemma other_channels_untouched_witness :
  let i := after [launched 1 500; speedIncreased 3 200] in
  let i' := after [launched 1 500; speedIncreased 3 200; launchedOn "chan2" 1 "APOLLO"] in
  db i' !! "test-channel"%string = db i !! "test-channel"%string /\
  watermark i' "test-channel" = watermark i "test-channel" /\
  buffered (messageBuffers i') "test-channel" = buffered (messageBuffers i) "test-channel".
Proof.
  intros i i'.
  apply (other_channels_untouched (H := JsonDoc) i (launchedOn "chan2" 1 "APOLLO") i' None).
  - apply after_reachable. small_numbers.
  - vm_compute. reflexivity.
  - discriminate.
Defined.

Lemma gap_event_is_held_witness :
  let i := after [launched 1 500] in
  exists i',
    UpdateRocketState i (speedIncreased 3 200) = Some (i', None) /\
    db i' = db i /\
    (exists m, m ∈ buffered (messageBuffers i') "test-channel" /\ number m = 3) /\
    ((forall m, m ∈ buffered (messageBuffers i) "test-channel" -> number m ≠ 3) ->
     buffered (messageBuffers i') "test-channel"
       ≡ₚ speedIncreased 3 200 :: buffered (messageBuffers i) "test-channel") /\
    ((exists m, m ∈ buffered (messageBuffers i) "test-channel" /\ number m = 3) ->
     messageBuffers i' = messageBuffers i).
Proof.
  intros i.
  apply (gap_event_is_held (H := JsonDoc) i (speedIncreased 3 200)).
  - apply after_reachable. small_numbers.
  - apply int_ok_small. vm_compute. split; discriminate.
  - vm_compute. reflexivity.
Defined.

Lemma update_returns_witness :
  (exists i' r, UpdateRocketState (after [speedIncreased 3 200]) (launched 1 500)
                = Some (i', r)) /\
  (exists r,
     drain 1 ∅ (messageBuffers (after [speedIncreased 3 200])) "test-channel" 2 = Some r /\
     drain 5 ∅ (messageBuffers (after [speedIncreased 3 200])) "test-channel" 2 = Some r).
Proof.
  split.
  - apply (proj1 (update_returns (H := JsonDoc))).
  - apply (proj2 (update_returns (H := JsonDoc))).
    + vm_compute. reflexivity.
    + repeat constructor.
Defined.

Lemma transitions_keep_rows_witness :
  let tx := db (after [launched 1 500; launchedOn "chan2" 1 "APOLLO"]) in
  let tx' := db (after [launched 1 500; launchedOn "chan2" 1 "APOLLO";
                        speedIncreased 2 300]) in
  (forall c, is_Some (tx !! c) -> is_Some (tx' !! c)) /\
  (forall c, "test-channel"%string ≠ c -> tx' !! c = tx !! c) /\
  (forall r, tx' !! "test-channel"%string = Some r -> last_message_number r = 2).
Proof.
  intros tx tx'.
  apply (transitions_keep_rows (H := JsonDoc) tx (speedIncreased 2 300) tx').
  vm_compute. reflexivity.
Defined.

(** The table of TestUpdateRocketState_Concurrent: a row at speed 1000. *)
Lemma speed_increases_accumulate_witness :
  let i := NewInventory (H := JsonDoc)
             (<["test-channel"%string :=
                {| type := None; speed := Some 1000; mission := None; status := None;
                   last_message_number := 0 |}]> ∅) in
  let es := [speedIncreased 1 100; speedIncreased 2 100; speedIncreased 3 100] in
  let ps := [speedIncreased 3 100; speedIncreased 1 100; speedIncreased 2 100] in
  exists i' r',
    UpdateAll i ps = Some (i', replicate (length es) None) /\
    db i' !! "test-channel"%string = Some r' /\
    speed r' = Some (1000 + foldr Z.add 0 (delta <$> es)) /\
    last_message_number r' = Z.of_nat (length es) /\
    type r' = None /\ mission r' = None /\ status r' = None.
Proof.
  intros i es ps.
  refine (speed_increases_accumulate (H := JsonDoc) i "test-channel" es ps
            {| type := None; speed := Some 1000; mission := None; status := None;
               last_message_number := 0 |} 1000 _ _ _ _ _ _ eq_refl eq_refl _ _ _ _).
  - vm_compute. reflexivity.
  - repeat apply Forall_cons_2; [..|apply Forall_nil_2];
      (split; [reflexivity|by exists {| By := 100 |}]).
  - repeat apply Forall_cons_2; [..|apply Forall_nil_2]; reflexivity.
  - vm_compute. discriminate.
  - reflexivity.
  - vm_compute. reflexivity.
  - apply int_ok_small. lia.
  - repeat apply Forall_cons_2; [..|apply Forall_nil_2]; apply int_ok_small; vm_compute;
      split; discriminate.
  - intros k Hk.
    do 4 (destruct k as [|k]; [vm_compute; split; discriminate|]).
    exfalso. simpl in Hk. unfold Nat.le in Hk. lia.
  - exact (Permutation_app_comm [speedIncreased 3 100]
             [speedIncreased 1 100; speedIncreased 2 100]).
Defined.

Lemma launched_then_get_witness :
  exists i',
    UpdateRocketState emptyInventory (launched 1 500) = Some (i', None) /\
    queries.GetRocket (db i') "test-channel" =
      inr {| queries.Channel := "test-channel";
             queries.Type_ := Some "Falcon-9"%string;
             queries.Speed := Some 500;
             queries.Mission := Some "ARTEMIS"%string;
             queries.Status := Some "launched"%string |} /\
    watermark i' "test-channel" = 1 /\
    messageBuffers i' = messageBuffers emptyInventory.
Proof.
  apply (launched_then_get (H := JsonDoc) emptyInventory (launched 1 500)
           {| Type_ := "Falcon-9"; LaunchSpeed := 500; Mission := "ARTEMIS" |}).
  - apply reachable_new. intros c r Hr. by rewrite lookup_empty in Hr.
  - apply int_ok_small. vm_compute. split; discriminate.
  - reflexivity.
  - reflexivity.
  - reflexivity.
  - intros b Hb. by apply not_elem_of_nil in Hb.
Defined.

Lemma row_comes_from_launch_witness :
  exists l,
    (l = launched 1 500 \/
     l ∈ buffered (messageBuffers (after [speedIncreased 2 300])) "test-channel") /\
    MessageType (metadata l) = "RocketLaunched"%string /\
    Channel (metadata l) = "test-channel"%string.
Proof.
  apply (row_comes_from_launch (H := JsonDoc) (after [speedIncreased 2 300])
           (launched 1 500) (after [speedIncreased 2 300; launched 1 500]) None).
  - vm_compute. reflexivity.
  - vm_compute. reflexivity.
  - eexists. vm_compute. reflexivity.
Defined.

(** The two rockets, listed by channel. *)

Lemma twoRockets_by_channel :
  queries.ListRockets (db (after twoRockets)) "channel"
    [queries.scan "chan2" (rowOf "APOLLO"); queries.scan "test-channel" (rowOf "ARTEMIS")].
Proof.
  exists [("chan2"%string, rowOf "APOLLO"); ("test-channel"%string, rowOf "ARTEMIS")].
  split; [|split; [|reflexivity]].
  - vm_compute. first [reflexivity | apply Permutation_swap].
  - repeat constructor.
Qed.

Lemma list_by_channel_is_determined_witness :
  let rockets := [queries.scan "chan2" (rowOf "APOLLO");
                  queries.scan "test-channel" (rowOf "ARTEMIS")] in
  rockets = rockets /\
  StronglySorted (fun a b => String.leb (queries.Channel a) (queries.Channel b) = true)
    rockets.
Proof.
  apply (list_by_channel_is_determined (db (after twoRockets)) "channel");
    [discriminate..|apply twoRockets_by_channel|apply twoRockets_by_channel].
Defined.

Lemma post_then_get_witness :
  (db emptyInventory !! "test-channel"%string = None ->
   api.handleRockets (db emptyInventory) "test-channel" =
     {| api.StatusCode := 404; api.Content := api.ErrorText "rocket not found" |}) /\
  exists i',
    api.handleMessage emptyInventory (inr (launched 1 500)) =
      Some (i', {| api.StatusCode := 200; api.Content := api.MessageProcessed |}) /\
    api.handleRockets (db i') "test-channel" =
      {| api.StatusCode := 200;
         api.Content := api.OneRocket
           {| queries.Channel := "test-channel";
              queries.Type_ := Some "Falcon-9"%string;
              queries.Speed := Some 500;
              queries.Mission := Some "ARTEMIS"%string;
              queries.Status := Some "launched"%string |} |}.
Proof.
  apply (post_then_get (H := JsonDoc) emptyInventory (launched 1 500)
           {| Type_ := "Falcon-9"; LaunchSpeed := 500; Mission := "ARTEMIS" |}).
  - apply reachable_new. intros c r Hr. by rewrite lookup_empty in Hr.
  - apply int_ok_small. vm_compute. split; discriminate.
  - reflexivity.
  - reflexivity.
  - reflexivity.
  - intros b Hb. by apply not_elem_of_nil in Hb.
Defined.

Lemma getLock_per_channel_witness :
  let reg := (getLock NewLockRegistry "chan1").2 in
  let '(l1, reg1) := getLock reg "chan1" in
  let '(l2, reg2) := getLock reg1 "chan2" in
  (l1 = l2 <-> "chan1"%string = "chan2"%string) /\
  ("chan1"%string = "chan2"%string -> reg2 = reg1) /\
  locks reg1 !! "chan1"%string = Some l1 /\
  locks reg2 !! "chan1"%string = Some l1 /\
  locks reg2 !! "chan2"%string = Some l2 /\
  (forall c l, locks reg !! c = Some l -> locks reg2 !! c = Some l).
Proof.
  exact (getLock_per_channel (getLock NewLockRegistry "chan1").2 "chan1" "chan2"
           (locks_get _ _ locks_new)).
Defined.

Lemma statuses_are_launched_or_exploded_witness :
  statuses_ok (db (after [launched 1 500; exploded 2])) /\
  forall c rs s,
    queries.GetRocket (db (after [launched 1 500; exploded 2])) c = inr rs ->
    queries.Status rs = Some s -> s = "launched"%string \/ s = "exploded"%string.
Proof.
  apply (statuses_are_launched_or_exploded (H := JsonDoc) (after [launched 1 500])
           (exploded 2) (after [launched 1 500; exploded 2]) None).
  - intros c r s Hr Hs. destruct (decide (c = "test-channel"%string)) as [->|Hc].
    + vm_compute in Hr. injection Hr as <-. injection Hs as <-. by left.
    + assert (db (after [launched 1 500])
              = <["test-channel"%string := rowOf "ARTEMIS"]> ∅) as Hdb
        by (vm_compute; reflexivity).
      rewrite Hdb, lookup_insert_ne, lookup_empty in Hr by done. done.
  - vm_compute. reflexivity.
Defined.

Lemma transitions_frame_witness :
  let tx := db (after [launched 1 500]) in
  let r' := {| type := Some "Falcon-9"%string; speed := Some 500;
               mission := Some "ARTEMIS"%string; status := Some "exploded"%string;
               last_message_number := 2 |} in
  (MessageType (metadata (exploded 2)) = "RocketLaunched"%string ->
   exists m, UnmarshalLaunched (message (exploded 2)) = inr m /\
     r' = {| type := Some (Type_ m); speed := Some (LaunchSpeed m);
             mission := Some (Mission m); status := Some "launched"%string;
             last_message_number := number (exploded 2) |}) /\
  (MessageType (metadata (exploded 2)) ≠ "RocketLaunched"%string ->
   exists r, tx !! Channel (metadata (exploded 2)) = Some r /\
     type r' = type r /\
     (MessageType (metadata (exploded 2)) ≠ "RocketSpeedIncreased"%string ->
      MessageType (metadata (exploded 2)) ≠ "RocketSpeedDecreased"%string ->
      speed r' = speed r) /\
     (MessageType (metadata (exploded 2)) ≠ "RocketMissionChanged"%string ->
      mission r' = mission r) /\
     (MessageType (metadata (exploded 2)) ≠ "RocketExploded"%string ->
      status r' = status r)).
Proof.
  intros tx r'.
  apply (transitions_frame (H := JsonDoc) tx (exploded 2)
           (db (after [launched 1 500; exploded 2])) r').
  - vm_compute. reflexivity.
  - vm_compute. reflexivity.
Defined.

